(** * strfry relay: subscription identifiers, metrics registry, deployed
    configuration, and the spec-level admission rules.

    Shallow embedding of
      - src/Subscription.h         (SubId, Subscription)
      - PrometheusMetrics header   (Counter, LabeledCounter, the registry, render)
      - deploy.sh                  (the default configuration file it writes)
    together with the two components that the specification describes and
    whose code is not among the sources (connection subscription cap,
    EventStore.install / Writer). *)

From Stdlib Require Import ZArith Lia List String Ascii Bool.
From Stdlib Require Import Sorted SetoidList Permutation.
From Stdlib Require Import FMapList FMapFacts OrderedTypeEx.
From Stdlib Require Import DecimalString DecimalN.
Import ListNotations.

Open Scope string_scope.
Open Scope list_scope.
Open Scope Z_scope.

(** ** C++ exceptions as an error result *)

(** [throw herr(msg)] aborts the constructor: no object is produced. *)
Inductive result (A : Type) : Type :=
| Ok (a : A)
| Throw (what : string).
Arguments Ok {A} a.
Arguments Throw {A} what.

(** Whether a call returned normally. *)
Definition is_ok {A} (r : result A) : bool :=
  match r with Ok _ => true | Throw _ => false end.

(** ** Subscription.h *)

Module SubscriptionH.

(** Modelled from the spec: the constant [MAX_SUBID_SIZE] is declared in
    filters.h, which is not among the sources.  The specification bounds a
    subscription id by 64 bytes and test/SubIdTests.cpp accepts 64 bytes and
    rejects 65. *)
Definition MAX_SUBID_SIZE : Z := 64.

(** Modelled from the spec: [MAX_U64] is declared outside the sources; it is
    the maximum value of [uint64_t]. *)
Definition MAX_U64 : Z := 2 ^ 64 - 1.

Section Chars.

(** Whether plain [char] is signed is implementation-defined; every
    definition below is parametric in it. *)
Variable char_is_signed : bool.

(** The integer value of a [char] holding the byte [c]
    (the value the comparisons in [badChar] see after promotion). *)
Definition char_value (c : ascii) : Z :=
  let b := Z.of_N (N_of_ascii c) in
  if char_is_signed && (128 <=? b) then b - 256 else b.

(** [(char) n] for a [size_t] n: the low eight bits. *)
Definition char_of_size (n : Z) : ascii :=
  ascii_of_N (Z.to_N (n mod 256)).

(** [(size_t) c] for a [char] c: the value, wrapped to 64 bits. *)
Definition size_of_char (c : ascii) : Z :=
  char_value c mod 2 ^ 64.

(** The lambda [badChar]: true when [c < 0x20], or [c] is the backslash,
    or [c] is the double quote, or [c >= 0x7F]. *)
Definition badChar (c : ascii) : bool :=
  (char_value c <? 32)
  || (char_value c =? char_value "\"%char)
  || (char_value c =? char_value "034"%char)
  || (char_value c >=? 127).

(** [char buf[MAX_SUBID_SIZE + 1]] *)
Record SubId : Type := { buf : list ascii }.

(** Writing [src] into an array from index [at]: [memcpy(&a[at], src, len)].
    Bytes that would fall behind the end of the array are not represented. *)
Definition memcpy (at_ : nat) (src : list ascii) (a : list ascii) : list ascii :=
  firstn (length a)
         (firstn at_ a ++ src ++ skipn (at_ + length src) a).

(** [SubId(std::string_view val)].  [uninit] is the indeterminate content
    of the storage before the constructor runs. *)
Definition SubId_ctor (uninit : list ascii) (val : string) : result SubId :=
  let size := Z.of_nat (String.length val) in
  if (size =? 0) || (size >? MAX_SUBID_SIZE)
  then Throw "invalid subscription id length"
  else if existsb badChar (list_ascii_of_string val)
  then Throw "invalid character in subscription id"
  else
    (* buf[0] = (char)val.size(); *)
    let b0 := memcpy 0 [char_of_size size] uninit in
    (* memcpy(&buf[1], val.data(), val.size()); *)
    Ok {| buf := memcpy 1 (list_ascii_of_string val) b0 |}.

(** [std::string_view sv() const { return std::string_view(&buf[1], (size_t)buf[0]); }] *)
Definition sv (s : SubId) : string :=
  string_of_list_ascii
    (firstn (Z.to_nat (size_of_char (nth 0 (buf s) zero)))
            (skipn 1 (buf s))).

(** [std::string str() const { return std::string(sv()); }] *)
Definition str (s : SubId) : string := sv s.

(** [bool operator==(const SubId &o) const { return o.sv() == sv(); }] *)
Definition SubId_eq (s o : SubId) : bool := String.eqb (sv o) (sv s).

(** [std::hash<SubId>]: [phmap::HashState().combine(0, p.sv())].  The
    combiner belongs to the parallel-hashmap library; it is a parameter. *)
Definition SubId_hash (combine : Z -> string -> Z) (p : SubId) : Z :=
  combine 0 (sv p).

(** [struct Subscription]; [NostrFilterGroup] comes from filters.h and is
    kept abstract. *)
Record Subscription (NostrFilterGroup : Type) : Type := {
  connId : Z;
  subId : SubId;
  filterGroup : NostrFilterGroup;
  ipAddr : string;
  latestEventId : Z              (* uint64_t latestEventId = MAX_U64; *)
}.

(** The constructor: the member initialiser [subId(subId_)] converts the
    string to a [SubId] and may throw. *)
Definition Subscription_ctor {NostrFilterGroup : Type} (uninit : list ascii)
    (connId_ : Z) (subId_ : string) (filterGroup_ : NostrFilterGroup)
    (ipAddr_ : string) : result (Subscription NostrFilterGroup) :=
  match SubId_ctor uninit subId_ with
  | Throw e => Throw e
  | Ok sid =>
      Ok {| connId := connId_; subId := sid; filterGroup := filterGroup_;
            ipAddr := ipAddr_; latestEventId := MAX_U64 |}
  end.

End Chars.

Arguments connId {NostrFilterGroup} _.
Arguments subId {NostrFilterGroup} _.
Arguments filterGroup {NostrFilterGroup} _.
Arguments ipAddr {NostrFilterGroup} _.
Arguments latestEventId {NostrFilterGroup} _.

(** Modelled from the spec: the ReqMonitor is not among the sources.  The
    specification delivers an event with identifier [quadID] to each
    subscription whose [latestQuadID < quadID]. *)
Definition monitor_considers {FG : Type} (sub : Subscription FG) (quadID : Z) : bool :=
  latestEventId sub <? quadID.

(** The wording of the specification for an acceptable subscription id:
    1 to 64 bytes, each in [0x20, 0x7E], none of them a double quote or a
    backslash. *)
Definition spec_valid_subid (val : string) : Prop :=
  (1 <= String.length val <= 64)%nat /\
  forall c, In c (list_ascii_of_string val) ->
    (32 <= N_of_ascii c <= 126)%N /\ c <> "034"%char /\ c <> "\"%char.

(** [std::string(n, c)], as test/SubIdTests.cpp builds its inputs. *)
Fixpoint string_fill (n : nat) (c : ascii) : string :=
  match n with
  | O => EmptyString
  | S k => String c (string_fill k c)
  end.

(** A zero-filled storage of [MAX_SUBID_SIZE + 1] bytes. *)
Definition blank_storage : list ascii := repeat zero 65.

End SubscriptionH.

(** ** The Prometheus metrics header *)

(** [std::map<std::string, T>]: an ordered map whose iteration follows the
    lexicographic order of the keys, bytes compared as unsigned. *)
Module SMap := FMapList.Make String_as_OT.
Module SMapFacts := FMapFacts.WFacts_fun String_as_OT SMap.
Module SMapProps := FMapFacts.WProperties_fun String_as_OT SMap.
Module SMapOrd := FMapFacts.OrdProperties SMap.

Module Metrics.

(** [class Counter]: [std::atomic<uint64_t> value{0}]. *)
Record Counter : Type := { value : Z }.

Definition Counter_new : Counter := {| value := 0 |}.

(** [void inc(uint64_t n = 1) { value.fetch_add(n, ...); }]: addition on
    [uint64_t] wraps modulo 2^64. *)
Definition Counter_inc (n : Z) (c : Counter) : Counter :=
  {| value := (value c + n) mod 2 ^ 64 |}.

(** [uint64_t get() const { return value.load(...); }] *)
Definition Counter_get (c : Counter) : Z := value c.

(** [class LabeledCounter]: [std::map<std::string, Counter> counters].
    The mutex only orders concurrent callers; the operations are modelled
    for one caller at a time. *)
Record LabeledCounter : Type := { counters : SMap.t Counter }.

Definition LabeledCounter_new : LabeledCounter :=
  {| counters := SMap.empty Counter |}.

(** [counters[label]]: the element stored under [label], default-constructed
    and inserted when there is none; returns the element and the map. *)
Definition map_subscript (label : string) (m : SMap.t Counter)
  : Counter * SMap.t Counter :=
  match SMap.find label m with
  | Some c => (c, m)
  | None => (Counter_new, SMap.add label Counter_new m)
  end.

(** [void inc(const std::string& label, uint64_t n = 1)] *)
Definition LabeledCounter_inc (label : string) (n : Z) (lc : LabeledCounter)
  : LabeledCounter :=
  match SMap.find label (counters lc) with
  | Some c =>
      (* it != counters.end(): it->second.inc(n); return; *)
      {| counters := SMap.add label (Counter_inc n c) (counters lc) |}
  | None =>
      (* counters[label].inc(n); *)
      let '(c, m) := map_subscript label (counters lc) in
      {| counters := SMap.add label (Counter_inc n c) m |}
  end.

(** [std::map<std::string, uint64_t> getAll() const] *)
Definition getAll (lc : LabeledCounter) : SMap.t Z :=
  fold_left
    (fun result (e : string * Counter) =>
       let '(label, counter) := e in SMap.add label (Counter_get counter) result)
    (SMap.elements (counters lc))
    (SMap.empty Z).

(** [class PrometheusMetrics]: the three labelled counters. *)
Record PrometheusMetrics : Type := {
  nostrClientMessages : LabeledCounter;
  nostrRelayMessages : LabeledCounter;
  nostrEventsByKind : LabeledCounter
}.

(** [PrometheusMetrics() = default]. *)
Definition PrometheusMetrics_new : PrometheusMetrics :=
  {| nostrClientMessages := LabeledCounter_new;
     nostrRelayMessages := LabeledCounter_new;
     nostrEventsByKind := LabeledCounter_new |}.

(** *** Text output *)

Definition LF : string := String "010"%char EmptyString.
Definition DQUOTE : string := String "034"%char EmptyString.

(** [out << count] for a [uint64_t]: its decimal digits. *)
Definition show_uint64 (count : Z) : string :=
  NilEmpty.string_of_uint (N.to_uint (Z.to_N count)).

(** [out << s] on the [std::ostringstream]. *)
Local Notation "out << s" := (String.append out s) (at level 50, left associativity).

(** [std::string render() const] *)
Definition render (this : PrometheusMetrics) : string :=
  let out := "" in
  (* Client messages *)
  let out := out << "# HELP nostr_client_messages_total Total number of Nostr client messages by verb" << LF in
  let out := out << "# TYPE nostr_client_messages_total counter" << LF in
  let clientMsgs := getAll (nostrClientMessages this) in
  let out :=
    fold_left (fun out (e : string * Z) => let '(verb, count) := e in
      out << "nostr_client_messages_total{verb=" << DQUOTE << verb << DQUOTE << "} "
          << show_uint64 count << LF)
      (SMap.elements clientMsgs) out in
  (* Relay messages *)
  let out := out << "# HELP nostr_relay_messages_total Total number of Nostr relay messages by verb" << LF in
  let out := out << "# TYPE nostr_relay_messages_total counter" << LF in
  let relayMsgs := getAll (nostrRelayMessages this) in
  let out :=
    fold_left (fun out (e : string * Z) => let '(verb, count) := e in
      out << "nostr_relay_messages_total{verb=" << DQUOTE << verb << DQUOTE << "} "
          << show_uint64 count << LF)
      (SMap.elements relayMsgs) out in
  (* Events by kind *)
  let out := out << "# HELP nostr_events_total Total number of Nostr events by kind" << LF in
  let out := out << "# TYPE nostr_events_total counter" << LF in
  let events := getAll (nostrEventsByKind this) in
  let out :=
    fold_left (fun out (e : string * Z) => let '(kind, count) := e in
      out << "nostr_events_total{kind=" << DQUOTE << kind << DQUOTE << "} "
          << show_uint64 count << LF)
      (SMap.elements events) out in
  out.

(** *** The singleton *)

(** The process owns one function-local static, [instance] of
    [getInstance]; it does not exist before the first call. *)
Record Process : Type := { instance : option PrometheusMetrics }.

Definition Process_start : Process := {| instance := None |}.

(** [static PrometheusMetrics& getInstance()]: the first call constructs
    the static, every call returns a reference to it.  The reference is
    modelled by the object read out of the slot together with the process
    that holds it; writes through the reference go back to the slot
    ([through_instance]). *)
Definition getInstance (p : Process) : PrometheusMetrics * Process :=
  match instance p with
  | Some pm => (pm, p)
  | None => (PrometheusMetrics_new, {| instance := Some PrometheusMetrics_new |})
  end.

(** [PrometheusMetrics::getInstance().m(...)] for a mutating member call. *)
Definition through_instance (m : PrometheusMetrics -> PrometheusMetrics)
    (p : Process) : Process :=
  let '(pm, _) := getInstance p in {| instance := Some (m pm) |}.

(** [PrometheusMetrics::getInstance().m(...)] for a const member call. *)
Definition read_instance {A : Type} (m : PrometheusMetrics -> A)
    (p : Process) : A * Process :=
  let '(pm, p') := getInstance p in (m pm, p').

(** The three families a caller can address. *)
Inductive Family : Type := ClientMsg | RelayMsg | EventKind.

Definition family_counter (f : Family) (pm : PrometheusMetrics) : LabeledCounter :=
  match f with
  | ClientMsg => nostrClientMessages pm
  | RelayMsg => nostrRelayMessages pm
  | EventKind => nostrEventsByKind pm
  end.

Definition family_inc (f : Family) (label : string) (n : Z)
    (pm : PrometheusMetrics) : PrometheusMetrics :=
  match f with
  | ClientMsg =>
      {| nostrClientMessages := LabeledCounter_inc label n (nostrClientMessages pm);
         nostrRelayMessages := nostrRelayMessages pm;
         nostrEventsByKind := nostrEventsByKind pm |}
  | RelayMsg =>
      {| nostrClientMessages := nostrClientMessages pm;
         nostrRelayMessages := LabeledCounter_inc label n (nostrRelayMessages pm);
         nostrEventsByKind := nostrEventsByKind pm |}
  | EventKind =>
      {| nostrClientMessages := nostrClientMessages pm;
         nostrRelayMessages := nostrRelayMessages pm;
         nostrEventsByKind := LabeledCounter_inc label n (nostrEventsByKind pm) |}
  end.

(** [#define PROM_INC_CLIENT_MSG(verb) PrometheusMetrics::getInstance().nostrClientMessages.inc(verb)] *)
Definition PROM_INC_CLIENT_MSG (verb : string) : Process -> Process :=
  through_instance (family_inc ClientMsg verb 1).

(** [#define PROM_INC_RELAY_MSG(verb) PrometheusMetrics::getInstance().nostrRelayMessages.inc(verb)] *)
Definition PROM_INC_RELAY_MSG (verb : string) : Process -> Process :=
  through_instance (family_inc RelayMsg verb 1).

(** [#define PROM_INC_EVENT_KIND(kind) PrometheusMetrics::getInstance().nostrEventsByKind.inc(kind)] *)
Definition PROM_INC_EVENT_KIND (kind : string) : Process -> Process :=
  through_instance (family_inc EventKind kind 1).

End Metrics.

(** *** Sequences of increments and the output format, for the statements *)

Module MetricsSpec.
Import Metrics.

(** A sequence of [inc(label, n)] calls on one labelled counter. *)
Definition run_incs (calls : list (string * Z)) (lc : LabeledCounter) : LabeledCounter :=
  fold_left (fun lc (call : string * Z) => LabeledCounter_inc (fst call) (snd call) lc)
            calls lc.

(** The sum of the arguments passed for [label]. *)
Fixpoint label_sum (label : string) (calls : list (string * Z)) : Z :=
  match calls with
  | [] => 0
  | (l, n) :: rest =>
      if String.eqb l label then n + label_sum label rest else label_sum label rest
  end.

(** What [getAll] reports for a label, if anything. *)
Definition recorded (lc : LabeledCounter) (label : string) : option Z :=
  SMap.find label (getAll lc).

(** The reported value after adding [n] to a label that reported
    [before]: a label not yet present starts from 0. *)
Definition bump (n : Z) (before : option Z) : option Z :=
  Some ((match before with Some v => v | None => 0 end + n) mod 2 ^ 64).

(** The help texts of the three families. *)
Definition help_client : string := "Total number of Nostr client messages by verb".
Definition help_relay : string := "Total number of Nostr relay messages by verb".
Definition help_events : string := "Total number of Nostr events by kind".

(** One sample line of the text format:
    name, brace, label name, equals sign, quoted label, brace, space, count, newline. *)
Definition sample_line (name labelname : string) (sample : string * Z) : string :=
  String.append name
    (String.append "{"
      (String.append labelname
        (String.append "="
          (String.append DQUOTE
            (String.append (fst sample)
              (String.append DQUOTE
                (String.append "} "
                  (String.append (show_uint64 (snd sample)) LF)))))))).

(** The two header lines of a family. *)
Definition family_header (name help : string) : string :=
  String.append "# HELP "
    (String.append name
      (String.append " "
        (String.append help
          (String.append LF
            (String.append "# TYPE "
              (String.append name
                (String.append " counter" LF))))))).

(** A family: its header, then one line per sample. *)
Definition family_text (name help labelname : string) (samples : list (string * Z)) : string :=
  String.append (family_header name help)
                (String.concat "" (map (sample_line name labelname) samples)).

(** [samples] lists what a labelled counter holds: labels strictly
    ascending in lexicographic order (so each label once), and a pair
    [(label, count)] is listed exactly when the counter has [count]
    recorded for [label]. *)
Definition samples_of (lc : LabeledCounter) (samples : list (string * Z)) : Prop :=
  StronglySorted String_as_OT.lt (map fst samples) /\
  forall label count,
    In (label, count) samples <->
    SMap.find label (counters lc) = Some {| value := count |}.

End MetricsSpec.

(** ** deploy.sh: the configuration file it writes *)

Module Deploy.

(** A value of the configuration language: a quoted string, a number or a
    boolean. *)
Inductive ConfValue : Type :=
| VStr (s : string)
| VNum (n : Z)
| VBool (b : bool).

(** A line [key = value] or a block [name { ... }]. *)
#[warnings="-register-all"] Inductive ConfItem : Type :=
| Setting (key : string) (v : ConfValue)
| Block (name : string) (items : list ConfItem).

Definition item_name (it : ConfItem) : string :=
  match it with
  | Setting key _ => key
  | Block name _ => name
  end.

(** The shell variables of the script. *)
Definition STRFRY_HOME : string := "/var/lib/strfry".
Definition STRFRY_DB_DIR : string := String.append STRFRY_HOME "/strfry-db".
Definition STRFRY_CONFIG : string := "/etc/strfry.conf".

(** [ADMIN_EMAIL="${2:-admin@$HOST}"]: the second argument, or the default
    when it is unset or empty. *)
Definition ADMIN_EMAIL (HOST : string) (arg2 : option string) : string :=
  match arg2 with
  | Some e => if String.eqb e "" then String.append "admin@" HOST else e
  | None => String.append "admin@" HOST
  end.

(** The text between [cat > "$STRFRY_CONFIG" << CONFIG_EOF] and
    [CONFIG_EOF], with the three variables expanded. *)
Definition strfry_conf (HOST ADMIN_EMAIL : string) : list ConfItem :=
  [ Setting "db" (VStr (String.append STRFRY_DB_DIR "/"));
    Block "dbParams"
      [ Setting "maxreaders" (VNum 256);
        Setting "mapsize" (VNum 10995116277760);
        Setting "noReadAhead" (VBool false) ];
    Block "events"
      [ Setting "maxEventSize" (VNum 65536);
        Setting "rejectEventsNewerThanSeconds" (VNum 900);
        Setting "rejectEventsOlderThanSeconds" (VNum 94608000);
        Setting "rejectEphemeralEventsOlderThanSeconds" (VNum 60);
        Setting "ephemeralEventsLifetimeSeconds" (VNum 300);
        Setting "maxNumTags" (VNum 2000);
        Setting "maxTagValSize" (VNum 1024) ];
    Block "relay"
      [ Setting "bind" (VStr "127.0.0.1");
        Setting "port" (VNum 7777);
        Setting "nofiles" (VNum 65536);
        Setting "realIpHeader" (VStr "x-real-ip");
        Block "info"
          [ Setting "name" (VStr (String.append "strfry relay at " HOST));
            Setting "description" (VStr (String.append "A strfry relay running at " HOST));
            Setting "pubkey" (VStr "");
            Setting "contact" (VStr ADMIN_EMAIL);
            Setting "icon" (VStr "");
            Setting "nips" (VStr "") ];
        Setting "maxWebsocketPayloadSize" (VNum 131072);
        Setting "maxReqFilterSize" (VNum 200);
        Setting "autoPingSeconds" (VNum 55);
        Setting "enableTcpKeepalive" (VBool false);
        Setting "queryTimesliceBudgetMicroseconds" (VNum 10000);
        Setting "maxFilterLimit" (VNum 500);
        Setting "maxSubsPerConnection" (VNum 20);
        Block "writePolicy"
          [ Setting "plugin" (VStr "") ];
        Block "compression"
          [ Setting "enabled" (VBool true);
            Setting "slidingWindow" (VBool true) ];
        Block "logging"
          [ Setting "dumpInAll" (VBool false);
            Setting "dumpInEvents" (VBool false);
            Setting "dumpInReqs" (VBool false);
            Setting "dbScanPerf" (VBool false);
            Setting "invalidEvents" (VBool true) ];
        Block "numThreads"
          [ Setting "ingester" (VNum 3);
            Setting "reqWorker" (VNum 3);
            Setting "reqMonitor" (VNum 3);
            Setting "negentropy" (VNum 2) ];
        Block "negentropy"
          [ Setting "enabled" (VBool true);
            Setting "maxSyncEvents" (VNum 1000000) ] ] ].

(** *** Running the script *)

(** A word of letters, digits and the characters [@ . _ - : / +]: no shell
    gives any of them a meaning, so such a word survives being put on a
    command line and split again. *)
Definition plain_char (c : ascii) : bool :=
  let n := N_of_ascii c in
  (N.leb 48 n && N.leb n 57) || (N.leb 65 n && N.leb n 90) || (N.leb 97 n && N.leb n 122)
  || existsb (Ascii.eqb c) (list_ascii_of_string "@._-:/+").

Definition plain_word (s : string) : bool :=
  forallb plain_char (list_ascii_of_string s).

(** What a run of the script comes to, as far as the configuration goes. *)
Inductive Run : Type :=
| UsageError (stdout : list string)                       (* exit 1 *)
| ConfigWritten (path : string) (conf : list ConfItem).

(** The two [echo] lines printed when the number of arguments is wrong;
    [script] is [$0]. *)
Definition usage (script : string) : list string :=
  [ String.append "Usage: " (String.append script " HOST [ADMIN_EMAIL]");
    String.append "Example: "
      (String.append script " my-relay.example.com admin@example.com") ].

(** [ssh dest bash -s -- w1 w2]: ssh joins the words with blanks into one
    command line and the remote shell splits that line again.  Plain words
    arrive as they were sent, except that an empty word disappears; for
    any other word the result depends on the remote shell and is left
    undetermined. *)
Definition remote_parameters (words : list string) : option (list string) :=
  if forallb plain_word words
  then Some (filter (fun w => negb (String.eqb w "")) words)
  else None.

(** The script sent to the remote shell, as far as the configuration goes:
    [HOST="$1"], [ADMIN_EMAIL="$2"], and step 6 writes the file.  A missing
    positional parameter is empty. *)
Definition remote_script (parameters : list string) : Run :=
  let HOST := nth 0 parameters EmptyString in
  let ADMIN_EMAIL := nth 1 parameters EmptyString in
  ConfigWritten STRFRY_CONFIG (strfry_conf HOST ADMIN_EMAIL).

(** The script called as [script] with [args].  With no or more than two
    arguments it prints its usage and exits with status 1.  Otherwise it
    takes the host and the contact from its arguments and runs the rest on
    the host through ssh.  The result is [None] where this model does not
    determine it: an empty host, for which there is nothing to connect to,
    and words that are not plain. *)
Definition deploy (script : string) (args : list string) : option Run :=
  match args with
  | [] => Some (UsageError (usage script))
  | _ :: _ :: _ :: _ => Some (UsageError (usage script))
  | arg1 :: rest =>
      let HOST := arg1 in                                   (* HOST="$1" *)
      let email := ADMIN_EMAIL HOST (nth_error rest 0) in   (* "${2:-admin@$HOST}" *)
      if String.eqb HOST "" then None
      else option_map remote_script (remote_parameters [HOST; email])
  end.

(** Reading the file: the first item of a given name. *)
Fixpoint find_item (name : string) (items : list ConfItem) : option ConfItem :=
  match items with
  | [] => None
  | it :: rest =>
      if String.eqb (item_name it) name then Some it else find_item name rest
  end.

(** The setting at a path of block names ending in a key. *)
Fixpoint lookup (path : list string) (items : list ConfItem) : option ConfValue :=
  match path with
  | [] => None
  | name :: rest =>
      match rest with
      | [] =>
          match find_item name items with
          | Some (Setting _ v) => Some v
          | _ => None
          end
      | _ :: _ =>
          match find_item name items with
          | Some (Block _ sub) => lookup rest sub
          | _ => None
          end
      end
  end.

End Deploy.

(** ** Connection state: the subscription cap *)

Module ConnState.

Section Subs.

(** The filter group of a subscription; its content plays no part here. *)
Variable FilterGroup : Type.

(** Modelled from the spec: the per-connection bookkeeping is not among the
    sources.  A connection holds its open subscriptions, each under the
    name the client gave it. *)
Definition Conn : Type := list (string * FilterGroup).

(** Modelled from the spec: the two incoming frames that change the open
    subscriptions, Subscribe and Close. *)
Inductive Incoming : Type :=
| REQ (subID : string) (fg : FilterGroup)
| CLOSE (subID : string).

(** Modelled from the spec: what the connection state answers; a
    rejection is a human-readable notice. *)
Inductive Reply : Type :=
| Opened
| Closed
| NOTICE (text : string).

(** Modelled from the spec: [CLOSE] destroys the subscription of that
    name. *)
Definition close_sub (subID : string) (c : Conn) : Conn :=
  filter (fun s => negb (String.eqb (fst s) subID)) c.

(** Modelled from the spec: a [REQ] under a name that is already open
    implicitly closes the prior subscription first; if the connection then
    attempts to open more than [maxSubsPerConnection], the newest is
    rejected with a notice. *)
Definition open_sub (maxSubsPerConnection : Z) (subID : string)
    (fg : FilterGroup) (c : Conn) : Reply * Conn :=
  let c' := close_sub subID c in
  if Z.of_nat (length c') + 1 >? maxSubsPerConnection
  then (NOTICE "too many concurrent REQs", c')
  else (Opened, c' ++ [(subID, fg)]).

(** Modelled from the spec: a subscription is created by REQ and destroyed
    by CLOSE. *)
Definition handle (maxSubsPerConnection : Z) (msg : Incoming) (c : Conn)
  : Reply * Conn :=
  match msg with
  | REQ subID fg => open_sub maxSubsPerConnection subID fg c
  | CLOSE subID => (Closed, close_sub subID c)
  end.

(** Modelled from the spec: the connection after a sequence of messages,
    handled in order. *)
Definition run (maxSubsPerConnection : Z) (msgs : list Incoming) (c : Conn) : Conn :=
  fold_left (fun c msg => snd (handle maxSubsPerConnection msg c)) msgs c.

End Subs.

Arguments REQ {FilterGroup} subID fg.
Arguments CLOSE {FilterGroup} subID.
Arguments close_sub {FilterGroup} subID c.
Arguments open_sub {FilterGroup} maxSubsPerConnection subID fg c.
Arguments handle {FilterGroup} maxSubsPerConnection msg c.
Arguments run {FilterGroup} maxSubsPerConnection msgs c.

(** The configured cap: [relay.maxSubsPerConnection] of the configuration
    file. *)
Definition configured_cap (conf : list Deploy.ConfItem) : option Z :=
  match Deploy.lookup ["relay"; "maxSubsPerConnection"] conf with
  | Some (Deploy.VNum n) => Some n
  | _ => None
  end.

End ConnState.

(** ** EventStore and Writer *)

Module EventStore.

(** Modelled from the spec: the event store and the writer are not among
    the sources.  An event, with the fields the admission algorithm reads;
    [dtag] is the first value of the first tag with letter d, empty when
    there is none. *)
Record Event : Type := {
  id : string;
  pubkey : string;
  created_at : Z;
  kind : Z;
  dtag : string
}.

(** Modelled from the spec: replaceable kinds, 0, 3 and 10000 to 19999. *)
Definition is_replaceable (k : Z) : bool :=
  (k =? 0) || (k =? 3) || ((10000 <=? k) && (k <=? 19999)).

(** Modelled from the spec: parameterised-replaceable kinds, 30000 to 39999. *)
Definition is_param_replaceable (k : Z) : bool :=
  (30000 <=? k) && (k <=? 39999).

(** Modelled from the spec: ephemeral kinds, 20000 to 29999. *)
Definition is_ephemeral (k : Z) : bool :=
  (20000 <=? k) && (k <=? 29999).

(** Modelled from the spec: the primary table, one row per stored event
    under its quadID, and the last quadID handed out.  The specification
    allocates [lastQuadID + 1] and says nothing of an exhausted identifier
    space; identifiers are natural numbers. *)
Record Store : Type := {
  lastQuadID : N;
  primary : list (N * Event)
}.

(** Modelled from the spec: the empty store. *)
Definition Store_empty : Store := {| lastQuadID := 0%N; primary := [] |}.

(** Modelled from the spec: the outcomes of [install]. *)
Inductive Outcome : Type :=
| Stored (quadID : N)
| Duplicate
| Replaced (quadID : N)
| Shadowed
| Rejected (reason : string).

(** Modelled from the spec: the index [byId], from event id to row. *)
Definition byId (i : string) (st : Store) : option (N * Event) :=
  find (fun row => String.eqb (id (snd row)) i) (primary st).

(** Modelled from the spec: the key of the index [replaceable],
    (pubkey, kind) or (pubkey, kind, d-value). *)
Definition replaceable_key (ev : Event) : option (string * Z * string) :=
  if is_replaceable (kind ev) then Some (pubkey ev, kind ev, "")
  else if is_param_replaceable (kind ev) then Some (pubkey ev, kind ev, dtag ev)
  else None.

(** Modelled from the spec: equality of two such keys. *)
Definition key_eqb (a b : string * Z * string) : bool :=
  String.eqb (fst (fst a)) (fst (fst b))
  && (snd (fst a) =? snd (fst b))
  && String.eqb (snd a) (snd b).

(** Modelled from the spec: the existing winner under the key of [ev], if
    any, looked up through the index [replaceable]. *)
Definition winner (ev : Event) (st : Store) : option (N * Event) :=
  match replaceable_key ev with
  | None => None
  | Some k =>
      find (fun row => match replaceable_key (snd row) with
                       | Some k' => key_eqb k k'
                       | None => false
                       end) (primary st)
  end.

(** Modelled from the spec: deletion of the loser, primary row and every
    index entry. *)
Definition delete_row (q : N) (st : Store) : Store :=
  {| lastQuadID := lastQuadID st;
     primary := filter (fun row => negb (N.eqb (fst row) q)) (primary st) |}.

Section Install.

(** Modelled from the spec: an ephemeral event gets a synthetic quadID; the
    specification does not say whether that consumes an identifier, and
    both readings are covered. *)
Variable ephemeral_consumes_id : bool.

(** Modelled from the spec: [install(event)], the algorithm of section 4.2
    (deletion events, which remove rows and allocate like any other event,
    are left out).
    1. an id already in [byId]: Duplicate, no writes;
    2. a replaceable kind: an existing winner that is newer, or as new with
       the greater id, shadows the event; any other winner is deleted and
       the outcome is Replaced;
    3. the quadID is [lastQuadID + 1];
    4. the primary row and the index entries are inserted, except for an
       ephemeral kind;
    5. the outcome carries the quadID. *)
Definition install (ev : Event) (st : Store) : Outcome * Store :=
  match byId (id ev) st with
  | Some _ => (Duplicate, st)
  | None =>
      let shadowed :=
        match winner ev st with
        | Some (_, old) =>
            (created_at old >? created_at ev)
            || ((created_at old =? created_at ev) && String.ltb (id ev) (id old))
        | None => false
        end in
      if shadowed then (Shadowed, st)
      else
        let replaced := match winner ev st with Some _ => true | None => false end in
        let st1 := match winner ev st with
                   | Some (q0, _) => delete_row q0 st
                   | None => st
                   end in
        let quadID := (lastQuadID st1 + 1)%N in
        let st2 :=
          if is_ephemeral (kind ev)
          then {| lastQuadID := if ephemeral_consumes_id then quadID else lastQuadID st1;
                  primary := primary st1 |}
          else {| lastQuadID := quadID;
                  primary := primary st1 ++ [(quadID, ev)] |} in
        (if replaced then Replaced quadID else Stored quadID, st2)
  end.

(** Modelled from the spec: the row an outcome put into the primary table,
    if it put one (step 4 is skipped for ephemeral kinds). *)
Definition stored_row (ev : Event) (o : Outcome) : option (N * Event) :=
  match o with
  | Stored q | Replaced q => if is_ephemeral (kind ev) then None else Some (q, ev)
  | _ => None
  end.

(** Modelled from the spec: the writer installs the events of a batch in
    order inside one transaction. *)
Fixpoint install_batch (batch : list Event) (st : Store)
  : list (N * Event) * Store :=
  match batch with
  | [] => ([], st)
  | ev :: rest =>
      let '(o, st1) := install ev st in
      let '(rows, st2) := install_batch rest st1 in
      (match stored_row ev o with Some r => r :: rows | None => rows end, st2)
  end.

(** Modelled from the spec: one round of the writer.  The transaction
    either commits, and the rows of the batch are committed in order, or
    fails, and the store is as before the batch. *)
Definition writer_round (commit_ok : bool) (batch : list Event) (st : Store)
  : list (N * Event) * Store :=
  if commit_ok then install_batch batch st else ([], st).

(** Modelled from the spec: the rows committed, in commit order, over a
    sequence of rounds of the single writer. *)
Fixpoint writer_run (rounds : list (bool * list Event)) (st : Store)
  : list (N * Event) * Store :=
  match rounds with
  | [] => ([], st)
  | (commit_ok, batch) :: rest =>
      let '(rows, st1) := writer_round commit_ok batch st in
      let '(rows', st2) := writer_run rest st1 in
      (rows ++ rows', st2)
  end.

End Install.

(** The quadIDs of [rows] ascend strictly and lie in the interval
    from [lo] (excluded) to [hi] (included). *)
Definition ascending_within (lo : N) (rows : list (N * Event)) (hi : N) : Prop :=
  StronglySorted N.lt (map fst rows)
  /\ Forall (fun q => lo < q <= hi)%N (map fst rows)
  /\ (lo <= hi)%N.

(** An event of pubkey P without a d tag, for the examples. *)
Definition sample_event (i : string) (k : Z) (t : Z) : Event :=
  {| id := i; pubkey := "P"; created_at := t; kind := k; dtag := "" |}.

End EventStore.

(** ** test/SubIdTests.cpp *)

Module SubIdTests.
Import SubscriptionH.

(** A test helper either returns, or writes a line to [std::cerr] and
    calls [std::exit(EXIT_FAILURE)]. *)
Inductive TestResult : Type :=
| Returned
| Exited (cerr : string).

Definition endl : string := String "010"%char EmptyString.

Section Harness.

Variable char_is_signed : bool.

(** The content of the stack slot in which the helpers construct their
    local [SubId s]. *)
Variable stack : list ascii.

(** [void expectSuccess(std::string_view name, std::string subId)] *)
Definition expectSuccess (name subId : string) : TestResult :=
  match SubId_ctor char_is_signed stack subId with
  | Ok s =>
      if negb (String.eqb (sv char_is_signed s) subId)
      then Exited (String.append name (String.append ": round-trip mismatch" endl))
      else Returned
  | Throw what =>
      Exited (String.append name
                (String.append ": expected success but threw: "
                   (String.append what endl)))
  end.

(** [void expectFailure(std::string_view name, std::string subId)] *)
Definition expectFailure (name subId : string) : TestResult :=
  match SubId_ctor char_is_signed stack subId with
  | Ok s =>
      Exited (String.append name
                (String.append ": expected failure but constructed successfully" endl))
  | Throw _ => Returned
  end.

(** Statements in sequence: the first exit ends the program. *)
Definition and_then (r : TestResult) (k : TestResult) : TestResult :=
  match r with
  | Returned => k
  | Exited e => Exited e
  end.

(** [int main()]: the exit status, [std::cout] and [std::cerr]. *)
Definition main : Z * string * string :=
  match
    and_then (expectSuccess "max length" (string_fill 64 "a"))
   (and_then (expectFailure "too long" (string_fill 65 "a"))
   (and_then (expectFailure "empty" "")
   (and_then (expectFailure "control char" (string_fill 1 "031"))
   (and_then (expectFailure "quote char" (String "034" EmptyString))
             (expectFailure "backslash" "\")))))
  with
  | Returned => (0, String.append "SubId tests passed" endl, "")   (* EXIT_SUCCESS *)
  | Exited e => (1, "", e)                                          (* EXIT_FAILURE *)
  end.

End Harness.

End SubIdTests.

(** *** Callers of the macros *)

Module MetricsUse.
Import Metrics.

(** One use of a counting macro somewhere in the program. *)
Inductive MacroCall : Type :=
| IncClientMsg (verb : string)     (* PROM_INC_CLIENT_MSG(verb) *)
| IncRelayMsg (verb : string)      (* PROM_INC_RELAY_MSG(verb) *)
| IncEventKind (kind : string).    (* PROM_INC_EVENT_KIND(kind) *)

Definition run_macro (c : MacroCall) : Process -> Process :=
  match c with
  | IncClientMsg verb => PROM_INC_CLIENT_MSG verb
  | IncRelayMsg verb => PROM_INC_RELAY_MSG verb
  | IncEventKind kind => PROM_INC_EVENT_KIND kind
  end.

(** The macro uses of a run, executed one after the other. *)
Definition run_macros (cs : list MacroCall) (p : Process) : Process :=
  fold_left (fun p c => run_macro c p) cs p.

Definition macro_family (c : MacroCall) : Family :=
  match c with
  | IncClientMsg _ => ClientMsg
  | IncRelayMsg _ => RelayMsg
  | IncEventKind _ => EventKind
  end.

Definition macro_label (c : MacroCall) : string :=
  match c with
  | IncClientMsg l | IncRelayMsg l | IncEventKind l => l
  end.

Definition Family_eqb (f g : Family) : bool :=
  match f, g with
  | ClientMsg, ClientMsg | RelayMsg, RelayMsg | EventKind, EventKind => true
  | _, _ => false
  end.

(** How many of the uses address family [f] with label [label]. *)
Fixpoint count_calls (f : Family) (label : string) (cs : list MacroCall) : Z :=
  match cs with
  | [] => 0
  | c :: rest =>
      (if Family_eqb (macro_family c) f && String.eqb (macro_label c) label
       then 1 else 0) + count_calls f label rest
  end.

(** [PrometheusMetrics::getInstance().<family>.getAll()] *)
Definition read_family (f : Family) (p : Process) : SMap.t Z :=
  fst (read_instance (fun pm => getAll (family_counter f pm)) p).

(** [PrometheusMetrics::getInstance().render()] *)
Definition read_render (p : Process) : string :=
  fst (read_instance render p).

End MetricsUse.

(** ** deploy.sh: what it does on the host *)

Module DeployHost.
Import Deploy.

Definition LF : ascii := "010"%char.

(** *** Swap space (step 1.5) *)

(** [grep -q "^pat" file] for a literal [pat]: some line of the text
    starts with [pat].  [at_start] tells whether the scan stands at the
    beginning of a line. *)
Fixpoint grep_line_start (pat : string) (at_start : bool) (text : string) : bool :=
  (at_start && String.prefix pat text)
  || match text with
     | EmptyString => false
     | String c rest => grep_line_start pat (Ascii.eqb c LF) rest
     end.

(** The part of the host the swap step reads and writes: whether
    [/swapfile] exists, and the text of [/etc/fstab]. *)
Record SwapState : Type := {
  swapfile_exists : bool;
  fstab : string
}.

Definition fstab_entry : string := "/swapfile none swap sw 0 0".

(** The step, given the swap total in megabytes that [free -m] reports.
    Below 4000 the swap file is created unless it exists, and the entry is
    appended to fstab unless a line starting with [/swapfile] is there
    ([echo ... >> /etc/fstab] writes the entry and a newline behind the
    present text). *)
Definition configure_swap (swap_total_mb : Z) (s : SwapState) : SwapState :=
  if swap_total_mb <? 4000 then
    let exists' :=
      if swapfile_exists s then true      (* assumed to be for swap *)
      else true                           (* fallocate; chmod 600; mkswap *)
    in
    (* swapon /swapfile || true *)
    let fstab' :=
      if negb (grep_line_start "/swapfile" true (fstab s))
      then String.append (fstab s) (String.append fstab_entry (String LF EmptyString))
      else fstab s in
    {| swapfile_exists := exists'; fstab := fstab' |}
  else s.


(** The lines of a text; a final newline does not start another line. *)
Fixpoint lines (text : string) : list string :=
  match text with
  | EmptyString => []
  | String c rest =>
      if Ascii.eqb c LF then EmptyString :: lines rest
      else match lines rest with
           | [] => [String c EmptyString]
           | l :: ls => String c l :: ls
           end
  end.

(** *** Files written (steps 6 and 7) *)

Inductive Content : Type :=
| ConfText (items : list ConfItem)
| PlainText (text : string).

(** A regular file: content, owner and group, permission bits. *)
Record File : Type := {
  content : Content;
  owner : string;
  mode : Z
}.

(** The files of the host, by path. *)
Definition Files : Type := SMap.t File.

(** [cmd > path] run by root under the given umask: an existing file keeps
    owner and mode and gets the new content, a new file belongs to root
    with mode [0666 & ~umask]. *)
Definition redirect_to (umask : Z) (path : string) (c : Content) (fs : Files) : Files :=
  match SMap.find path fs with
  | Some f => SMap.add path {| content := c; owner := owner f; mode := mode f |} fs
  | None => SMap.add path {| content := c; owner := "root:root";
                             mode := Z.ldiff 438 umask |} fs
  end.

(** [chown o path] and [chmod m path] on an existing file. *)
Definition chown (o : string) (path : string) (fs : Files) : Files :=
  match SMap.find path fs with
  | Some f => SMap.add path {| content := content f; owner := o; mode := mode f |} fs
  | None => fs
  end.

Definition chmod (m : Z) (path : string) (fs : Files) : Files :=
  match SMap.find path fs with
  | Some f => SMap.add path {| content := content f; owner := owner f; mode := m |} fs
  | None => fs
  end.

Definition STRFRY_USER : string := "strfry".
Definition STRFRY_GROUP : string := "strfry".
Definition STRFRY_BINARY_PATH : string := "/usr/local/bin/strfry".
Definition SERVICE_PATH : string := "/etc/systemd/system/strfry.service".

(** The unit file between [<< 'SERVICE_EOF'] and [SERVICE_EOF]; the
    delimiter is quoted, so nothing in it is expanded. *)
Definition service_unit : string :=
"[Unit]
Description=strfry nostr relay
After=network.target

[Service]
User=strfry
Group=strfry
ExecStart=/usr/local/bin/strfry relay --config /etc/strfry.conf
Restart=on-failure
LimitNOFILE=65536

[Install]
WantedBy=multi-user.target
".

(** Step 6: the configuration file is written, then
    [chown root:"$STRFRY_GROUP"] and [chmod 640]. *)
Definition create_config (umask : Z) (HOST ADMIN_EMAIL : string) (fs : Files) : Files :=
  let fs := redirect_to umask STRFRY_CONFIG (ConfText (strfry_conf HOST ADMIN_EMAIL)) fs in
  let fs := chown (String.append "root:" STRFRY_GROUP) STRFRY_CONFIG fs in
  chmod 416 STRFRY_CONFIG fs.

(** Step 7: [if [ ! -f /etc/systemd/system/strfry.service ]] the unit file
    is written; an existing one is left alone. *)
Definition create_service (umask : Z) (fs : Files) : Files :=
  match SMap.find SERVICE_PATH fs with
  | None => redirect_to umask SERVICE_PATH (PlainText service_unit) fs
  | Some _ => fs
  end.

(** Steps 6 and 7 in sequence. *)
Definition write_files (umask : Z) (HOST ADMIN_EMAIL : string) (fs : Files) : Files :=
  create_service umask (create_config umask HOST ADMIN_EMAIL fs).

(** *** The reverse proxy (step 9) *)

(** The directives of [location /] in both nginx site files, as the
    here-document leaves them after [\$] has become [$]. *)
Definition nginx_location : list (string * string) :=
  [ ("proxy_pass", "http://127.0.0.1:7777");
    ("proxy_http_version", "1.1");
    ("proxy_set_header", "Upgrade $http_upgrade");
    ("proxy_set_header", "Connection $connection_upgrade");
    ("proxy_set_header", "Host $host");
    ("proxy_set_header", "x-real-ip $remote_addr");
    ("proxy_set_header", "x-forwarded-for $proxy_add_x_forwarded_for");
    ("proxy_set_header", "x-forwarded-proto $scheme") ].

(** The value of the first directive of a given name. *)
Fixpoint directive (name : string) (ds : list (string * string)) : option string :=
  match ds with
  | [] => None
  | (n, v) :: rest => if String.eqb n name then Some v else directive name rest
  end.

(** The request headers the proxy sets: the first word of each
    [proxy_set_header] directive. *)
Fixpoint first_word (s : string) : string :=
  match s with
  | EmptyString => EmptyString
  | String c rest => if Ascii.eqb c " "%char then EmptyString else String c (first_word rest)
  end.

Definition proxy_headers (ds : list (string * string)) : list string :=
  map (fun d => first_word (snd d))
      (filter (fun d => String.eqb (fst d) "proxy_set_header") ds).

(** Decimal digits of a number of the configuration. *)
Definition show_num (n : Z) : string :=
  NilEmpty.string_of_uint (N.to_uint (Z.to_N n)).

Definition is_upper (c : ascii) : bool :=
  (N.leb 65 (N_of_ascii c)) && (N.leb (N_of_ascii c) 90).

End DeployHost.

(** *** The text format, line by line *)

Module PromText.
Import Metrics.

(** The line terminator and the double quote of the text format. *)
Definition NL : ascii := "010"%char.
Definition QUOTE : ascii := "034"%char.

(** A text as the lines it consists of, each followed by the terminator. *)
Fixpoint unlines (ls : list string) : string :=
  match ls with
  | [] => EmptyString
  | l :: rest => String.append l (String NL (unlines rest))
  end.

(** The lines a reader of the text sees: it is cut at every terminator. *)
Fixpoint text_lines (text : string) : list string :=
  match text with
  | EmptyString => []
  | String c rest =>
      if Ascii.eqb c NL then EmptyString :: text_lines rest
      else match text_lines rest with
           | [] => [String c EmptyString]
           | l :: ls => String c l :: ls
           end
  end.

Fixpoint newline_free (s : string) : bool :=
  match s with
  | EmptyString => true
  | String c rest => negb (Ascii.eqb c NL) && newline_free rest
  end.

(** [digits] is the decimal numeral of [count]: it reads as a number
    without leading zeros whose value is [count]. *)
Definition decimal_of (count : Z) (digits : string) : Prop :=
  exists d : Decimal.uint,
    NilEmpty.uint_of_string digits = Some d /\
    Decimal.unorm d = d /\
    Z.of_N (N.of_uint d) = count.

(** [line] is the sample of metric [name] for the pair (label, count):
    the name, the label name and the label between double quotes inside
    braces, a blank, and the count in decimal. *)
Definition sample_entry (name labelname : string) (sample : string * Z)
    (line : string) : Prop :=
  exists digits : string,
    decimal_of (snd sample) digits /\
    line = String.append name
             (String "{"
                (String.append labelname
                   (String "="
                      (String QUOTE
                         (String.append (fst sample)
                            (String QUOTE
                               (String "}" (String " " digits)))))))).

(** The six header lines. *)
Definition HELP_client : string :=
  "# HELP nostr_client_messages_total Total number of Nostr client messages by verb".
Definition TYPE_client : string := "# TYPE nostr_client_messages_total counter".
Definition HELP_relay : string :=
  "# HELP nostr_relay_messages_total Total number of Nostr relay messages by verb".
Definition TYPE_relay : string := "# TYPE nostr_relay_messages_total counter".
Definition HELP_events : string :=
  "# HELP nostr_events_total Total number of Nostr events by kind".
Definition TYPE_events : string := "# TYPE nostr_events_total counter".

(** Every counter holds a [uint64_t]. *)
Definition uint64_counters (pm : PrometheusMetrics) : Prop :=
  forall (f : Family) (label : string) (c : Counter),
    SMap.find label (counters (family_counter f pm)) = Some c ->
    0 <= value c < 2 ^ 64.

(** No recorded label contains a line terminator. *)
Definition labels_newline_free (pm : PrometheusMetrics) : Prop :=
  forall (f : Family) (label : string) (c : Counter),
    SMap.find label (counters (family_counter f pm)) = Some c ->
    newline_free label = true.

(** A line of the output that is not a comment line. *)
Definition is_sample_line (line : string) : bool :=
  negb (String.prefix "#" line).

(** The number of labels recorded over the three families. *)
Definition recorded_label_count (pm : PrometheusMetrics) : nat :=
  (length (SMap.elements (getAll (nostrClientMessages pm)))
   + length (SMap.elements (getAll (nostrRelayMessages pm)))
   + length (SMap.elements (getAll (nostrEventsByKind pm))))%nat.

(** The rendered text has exactly one sample line per recorded label. *)
Definition one_line_per_label (pm : PrometheusMetrics) : Prop :=
  length (filter is_sample_line (text_lines (render pm))) = recorded_label_count pm.

(** The sample line [render] writes for a pair, without its terminator. *)
Definition written_entry (name labelname : string) (sample : string * Z) : string :=
  String.append name
    (String "{"
       (String.append labelname
          (String "="
             (String QUOTE
                (String.append (fst sample)
                   (String QUOTE
                      (String "}" (String " " (show_uint64 (snd sample)))))))))).

(** A label that reads as the end of one sample line and the start of the
    next. *)
Definition label_of_two_lines : string :=
  String.append "a"
    (String QUOTE
       (String.append "} 1"
          (String NL
             (String.append "nostr_client_messages_total{verb="
                (String QUOTE "b"))))).

(** The registry after two client-message increments of that label. *)
Definition registry_with_two_line_label : PrometheusMetrics :=
  family_inc ClientMsg label_of_two_lines 1
    (family_inc ClientMsg label_of_two_lines 1 PrometheusMetrics_new).

End PromText.

(** * Theorems *)

(** ** Subscription identifiers *)

Import SubscriptionH.

Lemma N_of_ascii_range (c : ascii) : 0 <= Z.of_N (N_of_ascii c) < 256.
Proof.
  pose proof (N_ascii_bounded c). lia.
Qed.

Lemma ascii_neq_code (c d : ascii) :
  c <> d <-> Z.of_N (N_of_ascii c) <> Z.of_N (N_of_ascii d).
Proof.
  split; intros H E; apply H.
  - apply N2Z.inj in E.
    rewrite <- (ascii_N_embedding c), <- (ascii_N_embedding d), E. reflexivity.
  - now subst.
Qed.

(** The rejecting predicate of the constructor, read off the byte value:
    whatever the signedness of [char], a byte is good exactly when it lies
    in [0x20, 0x7E] and is neither 0x22 nor 0x5C. *)
Lemma badChar_false_iff (sgn : bool) (c : ascii) :
  badChar sgn c = false <->
  (32 <= N_of_ascii c <= 126)%N /\ c <> "034"%char /\ c <> "\"%char.
Proof.
  rewrite !ascii_neq_code.
  change (Z.of_N (N_of_ascii "034")) with 34.
  change (Z.of_N (N_of_ascii "\")) with 92.
  pose proof (N_of_ascii_range c) as R.
  unfold badChar.
  replace (char_value sgn "\") with 92 by (destruct sgn; reflexivity).
  replace (char_value sgn "034") with 34 by (destruct sgn; reflexivity).
  unfold char_value.
  set (b := Z.of_N (N_of_ascii c)) in *.
  assert (HN : (32 <= N_of_ascii c <= 126)%N <-> 32 <= b <= 126) by (subst b; lia).
  rewrite HN. clearbody b.
  rewrite !orb_false_iff.
  destruct sgn; simpl andb.
  - destruct (Z.leb_spec 128 b);
      rewrite Z.ltb_ge, !Z.eqb_neq, Z.geb_leb, Z.leb_gt; lia.
  - rewrite Z.ltb_ge, !Z.eqb_neq, Z.geb_leb, Z.leb_gt; lia.
Qed.

Lemma existsb_badChar_false (sgn : bool) (l : list ascii) :
  existsb (badChar sgn) l = false <->
  forall c, In c l ->
    (32 <= N_of_ascii c <= 126)%N /\ c <> "034"%char /\ c <> "\"%char.
Proof.
  induction l as [|a l IH]; simpl.
  - split; [intros _ c []| reflexivity].
  - rewrite orb_false_iff, IH, badChar_false_iff. split.
    + intros [Ha Hl] c [<-|Hc]; auto.
    + intros H. split; [apply H; now left | intros c Hc; apply H; now right].
Qed.

Lemma length_list_ascii_of_string (s : string) :
  length (list_ascii_of_string s) = String.length s.
Proof.
  induction s; simpl; congruence.
Qed.

(** The constructor, as a decision on the input alone. *)
Lemma SubId_ctor_ok_iff (sgn : bool) (uninit : list ascii) (val : string) :
  is_ok (SubId_ctor sgn uninit val) = true <-> spec_valid_subid val.
Proof.
  unfold SubId_ctor, spec_valid_subid, MAX_SUBID_SIZE.
  destruct (Z.eqb_spec (Z.of_nat (String.length val)) 0) as [E0|N0]; simpl orb.
  { simpl. split; [discriminate | lia]. }
  destruct (Z.gtb_spec (Z.of_nat (String.length val)) 64) as [G|G].
  { simpl. split; [discriminate | lia]. }
  destruct (existsb (badChar sgn) (list_ascii_of_string val)) eqn:Eb.
  - simpl. split; [discriminate|].
    intros [_ Hc].
    pose proof (proj2 (existsb_badChar_false sgn _) Hc). congruence.
  - simpl. split; [intros _ | reflexivity].
    split; [lia | exact (proj1 (existsb_badChar_false sgn _) Eb)].
Qed.

(** C1. The SubId constructor succeeds exactly on the strings of 1 to 64
    bytes all of whose bytes lie in [0x20, 0x7E] and are neither the double
    quote nor the backslash; on every other input it throws and produces no
    SubId.  This holds whether plain [char] is signed or not, and whatever
    the storage held before. *)
Theorem SubId_ctor_accepts_exactly :
  forall (sgn : bool) (uninit : list ascii) (val : string),
    ((exists id, SubId_ctor sgn uninit val = Ok id) <-> spec_valid_subid val) /\
    ((exists what, SubId_ctor sgn uninit val = Throw what) <-> ~ spec_valid_subid val).
Proof.
  intros sgn uninit val.
  pose proof (SubId_ctor_ok_iff sgn uninit val) as H.
  destruct (SubId_ctor sgn uninit val) as [id|what]; simpl in H.
  - split; split.
    + intros _. now apply H.
    + intros _. now exists id.
    + intros [w Hw]. discriminate.
    + intros Hn. exfalso. apply Hn. now apply H.
  - split; split.
    + intros [i Hi]. discriminate.
    + intros Hv. apply H in Hv. discriminate.
    + intros _ Hv. apply H in Hv. discriminate.
    + intros _. now exists what.
Qed.


(** [static_assert(MAX_SUBID_SIZE <= 255, ...)] *)
Example MAX_SUBID_SIZE_fits_in_a_byte : MAX_SUBID_SIZE <= 255.
Proof. unfold MAX_SUBID_SIZE. lia. Qed.

(** The cases of test/SubIdTests.cpp. *)
Example test_max_length :
  is_ok (SubId_ctor true blank_storage (string_fill 64 "a")) = true.
Proof. reflexivity. Qed.

Example test_too_long :
  is_ok (SubId_ctor true blank_storage (string_fill 65 "a")) = false.
Proof. reflexivity. Qed.

Example test_empty : is_ok (SubId_ctor true blank_storage "") = false.
Proof. reflexivity. Qed.

Example test_control_char :
  is_ok (SubId_ctor true blank_storage (string_fill 1 "031")) = false.
Proof. reflexivity. Qed.

Example test_quote_char :
  is_ok (SubId_ctor true blank_storage (string_fill 1 "034")) = false.
Proof. reflexivity. Qed.

Example test_backslash : is_ok (SubId_ctor true blank_storage "\") = false.
Proof. reflexivity. Qed.

Example test_del_and_high_bytes :
  forallb (fun sgn =>
    negb (is_ok (SubId_ctor sgn blank_storage (string_fill 1 "127")))
    && negb (is_ok (SubId_ctor sgn blank_storage (string_fill 1 "128")))
    && negb (is_ok (SubId_ctor sgn blank_storage (string_fill 1 "255"))))
    [true; false] = true.
Proof. reflexivity. Qed.

(** *** The stored representation *)

Lemma memcpy_in_bounds (at_ : nat) (src a : list ascii) :
  (at_ + length src <= length a)%nat ->
  memcpy at_ src a = firstn at_ a ++ src ++ skipn (at_ + length src) a.
Proof.
  intros H. unfold memcpy.
  apply firstn_all2.
  rewrite !length_app, length_firstn, length_skipn. lia.
Qed.

Lemma memcpy_length (at_ : nat) (src a : list ascii) :
  (at_ + length src <= length a)%nat ->
  length (memcpy at_ src a) = length a.
Proof.
  intros H. rewrite memcpy_in_bounds by assumption.
  rewrite !length_app, length_firstn, length_skipn. lia.
Qed.

(** A length of at most 127 survives the trip through a [char], signed or
    not. *)
Lemma size_of_char_of_size (sgn : bool) (n : Z) :
  0 <= n < 128 -> size_of_char sgn (char_of_size n) = n.
Proof.
  intros H. unfold size_of_char, char_value, char_of_size.
  rewrite (Z.mod_small n 256) by lia.
  rewrite N_ascii_embedding by lia.
  rewrite Z2N.id by lia.
  replace (128 <=? n) with false by (symmetry; apply Z.leb_gt; lia).
  rewrite andb_false_r. apply Z.mod_small. lia.
Qed.

(** What an accepted constructor call leaves in [buf]: the length byte,
    the characters of the argument, then whatever the storage held. *)
Lemma SubId_ctor_buf (sgn : bool) (uninit : list ascii) (val : string) (id : SubId) :
  length uninit = Z.to_nat (MAX_SUBID_SIZE + 1) ->
  SubId_ctor sgn uninit val = Ok id ->
  buf id = char_of_size (Z.of_nat (String.length val))
             :: list_ascii_of_string val
             ++ skipn (1 + String.length val) uninit
  /\ (1 <= String.length val <= 64)%nat.
Proof.
  intros Hlen. change (Z.to_nat (MAX_SUBID_SIZE + 1)) with 65%nat in Hlen.
  unfold SubId_ctor, MAX_SUBID_SIZE.
  destruct (Z.eqb_spec (Z.of_nat (String.length val)) 0); simpl orb; [discriminate|].
  destruct (Z.gtb_spec (Z.of_nat (String.length val)) 64); [discriminate|].
  destruct (existsb _ _); [discriminate|].
  intros [= <-]. cbn [buf]. split; [|lia].
  assert (H0 : memcpy 0 [char_of_size (Z.of_nat (String.length val))] uninit
               = char_of_size (Z.of_nat (String.length val)) :: skipn 1 uninit).
  { rewrite memcpy_in_bounds by (simpl; lia). reflexivity. }
  rewrite H0.
  rewrite memcpy_in_bounds
    by (cbn [length]; rewrite length_skipn, length_list_ascii_of_string; lia).
  rewrite length_list_ascii_of_string.
  change (firstn 1 (?x :: ?l)) with [x].
  change (skipn (1 + ?k) (?x :: ?l)) with (skipn k l).
  cbn [app]. rewrite skipn_skipn. do 3 f_equal. lia.
Qed.

Lemma sv_of_ctor (sgn : bool) (uninit : list ascii) (val : string) (id : SubId) :
  length uninit = Z.to_nat (MAX_SUBID_SIZE + 1) ->
  SubId_ctor sgn uninit val = Ok id ->
  sv sgn id = val.
Proof.
  intros Hlen Hok.
  destruct (SubId_ctor_buf sgn uninit val id Hlen Hok) as [Hb Hr].
  unfold sv. rewrite Hb. cbn [nth skipn].
  rewrite size_of_char_of_size by lia.
  rewrite Nat2Z.id.
  rewrite <- (length_list_ascii_of_string val) at 1.
  rewrite firstn_app, Nat.sub_diag, firstn_all. cbn [firstn].
  rewrite app_nil_r. apply string_of_list_ascii_of_string.
Qed.

(** C3. Round trip: for every string the constructor accepts, [sv()] and
    [str()] give the string back; [operator==] holds exactly when the decoded
    strings are equal; and SubIds that compare equal have equal hashes
    (for any combiner of the hash library). *)
Theorem SubId_roundtrip :
  forall (sgn : bool) (uninit : list ascii) (val : string) (id : SubId),
    length uninit = Z.to_nat (MAX_SUBID_SIZE + 1) ->
    SubId_ctor sgn uninit val = Ok id ->
    sv sgn id = val /\ str sgn id = val /\
    (forall a b : SubId, SubId_eq sgn a b = true <-> sv sgn a = sv sgn b) /\
    (forall (combine : Z -> string -> Z) (a b : SubId),
        SubId_eq sgn a b = true -> SubId_hash sgn combine a = SubId_hash sgn combine b).
Proof.
  intros sgn uninit val id Hlen Hok.
  pose proof (sv_of_ctor sgn uninit val id Hlen Hok) as Hsv.
  repeat split.
  - exact Hsv.
  - exact Hsv.
  - unfold SubId_eq. intros E. apply String.eqb_eq in E. congruence.
  - unfold SubId_eq. intros E. apply String.eqb_eq. congruence.
  - intros combine a b E. unfold SubId_eq in E. apply String.eqb_eq in E.
    unfold SubId_hash. congruence.
Qed.

Lemma SubId_roundtrip_witness :
  exists id, SubId_ctor true blank_storage "s1" = Ok id /\ sv true id = "s1".
Proof.
  eexists. split; [reflexivity|].
  apply (SubId_roundtrip true blank_storage "s1" _); reflexivity.
Defined.

(** Equality of SubIds ignores the bytes behind the stored string: two
    constructions over different storage compare equal. *)
Example SubId_eq_ignores_padding :
  match SubId_ctor false (repeat "x"%char 65) "abc", SubId_ctor false blank_storage "abc" with
  | Ok a, Ok b =>
      SubId_eq false a b && (if list_eq_dec ascii_dec (buf a) (buf b) then false else true)
  | _, _ => false
  end = true.
Proof. reflexivity. Qed.

(** C2. Every newly constructed Subscription has [latestEventId = MAX_U64],
    so the delivery test [latestQuadID < Q] of the monitor is false for
    every 64-bit event identifier Q: nothing is deliverable to it until the
    hand-off assigns [latestQuadID]. *)
Theorem Subscription_ctor_latestEventId :
  forall (sgn : bool) (FG : Type) (uninit : list ascii) (connId_ : Z)
         (subId_ : string) (fg : FG) (ipAddr_ : string) (sub : Subscription FG),
    Subscription_ctor sgn uninit connId_ subId_ fg ipAddr_ = Ok sub ->
    latestEventId sub = MAX_U64 /\
    forall Q : Z, 0 <= Q <= MAX_U64 -> monitor_considers sub Q = false.
Proof.
  intros sgn FG uninit connId_ subId_ fg ipAddr_ sub.
  unfold Subscription_ctor.
  destruct (SubId_ctor sgn uninit subId_) as [sid|e]; [|discriminate].
  intros [= <-]. cbn [latestEventId]. split; [reflexivity|].
  intros Q HQ. unfold monitor_considers. cbn [latestEventId].
  apply Z.ltb_ge. lia.
Qed.

Lemma Subscription_ctor_latestEventId_witness :
  exists sub, Subscription_ctor true blank_storage 7 "s1" tt "" = Ok sub /\
              latestEventId sub = MAX_U64.
Proof.
  eexists. split; [reflexivity|].
  apply (Subscription_ctor_latestEventId true unit blank_storage 7 "s1" tt ""); reflexivity.
Defined.

(** ** Metrics *)

Import Metrics MetricsSpec.

Lemma fold_left_pointwise {A B : Type} (f g : A -> B -> A) (l : list B) (i : A) :
  (forall a b, f a b = g a b) -> fold_left f l i = fold_left g l i.
Proof.
  intros E. revert i. induction l as [|b l IH]; intros i; simpl.
  - reflexivity.
  - rewrite E. apply IH.
Qed.

(** [getAll] is the map-library fold that copies every counter's value. *)
Lemma getAll_as_fold (lc : LabeledCounter) :
  getAll lc =
  SMap.fold (fun label counter result => SMap.add label (Counter_get counter) result)
            (counters lc) (SMap.empty Z).
Proof.
  unfold getAll. rewrite SMap.fold_1.
  apply fold_left_pointwise. intros a [label counter]. reflexivity.
Qed.

(** [getAll] holds, under each label, the value of that label's counter,
    and nothing else. *)
Lemma find_getAll (lc : LabeledCounter) (label : string) :
  SMap.find label (getAll lc) =
  option_map Counter_get (SMap.find label (counters lc)).
Proof.
  rewrite getAll_as_fold. revert label.
  apply SMapProps.fold_rec.
  - intros m Hm label. rewrite SMapFacts.empty_o.
    destruct (SMap.find label m) as [c|] eqn:E; [|reflexivity].
    apply SMapFacts.find_mapsto_iff in E. exfalso. exact (Hm label c E).
  - intros k e a m' m'' _ _ Hadd IH label.
    rewrite (Hadd label), !SMapFacts.add_o.
    destruct (String_as_OT.eq_dec k label); [reflexivity | apply IH].
Qed.

(** The counter of a label after one [inc]. *)
Lemma find_inc (lc : LabeledCounter) (label : string) (n : Z) (l : string) :
  SMap.find l (counters (LabeledCounter_inc label n lc)) =
  if String.eqb label l
  then Some (Counter_inc n (match SMap.find label (counters lc) with
                            | Some c => c
                            | None => Counter_new
                            end))
  else SMap.find l (counters lc).
Proof.
  unfold LabeledCounter_inc, map_subscript.
  destruct (SMap.find label (counters lc)) as [c|] eqn:E; cbn [counters];
    rewrite !SMapFacts.add_o;
    destruct (String_as_OT.eq_dec label l) as [->|Hne].
  - now rewrite String.eqb_refl.
  - apply String.eqb_neq in Hne. now rewrite Hne.
  - now rewrite String.eqb_refl.
  - apply String.eqb_neq in Hne. now rewrite Hne.
Qed.

Lemma recorded_inc (lc : LabeledCounter) (label : string) (n : Z) (l : string) :
  recorded (LabeledCounter_inc label n lc) l =
  if String.eqb label l then bump n (recorded lc label) else recorded lc l.
Proof.
  unfold recorded, bump. rewrite !find_getAll, find_inc.
  destruct (String.eqb label l); [|reflexivity].
  destruct (SMap.find label (counters lc)); reflexivity.
Qed.

Lemma recorded_new (l : string) : recorded LabeledCounter_new l = None.
Proof.
  unfold recorded. rewrite find_getAll. reflexivity.
Qed.

Lemma label_sum_absent (calls : list (string * Z)) (l : string) :
  existsb (fun call => String.eqb (fst call) l) calls = false ->
  label_sum l calls = 0.
Proof.
  induction calls as [|[label n] calls IH]; cbn [existsb label_sum fst].
  - reflexivity.
  - intros H. apply orb_false_iff in H as [H1 H2].
    rewrite H1. now apply IH.
Qed.

Lemma recorded_run_incs (calls : list (string * Z)) (lc : LabeledCounter) (l : string) :
  recorded (run_incs calls lc) l =
  if existsb (fun call => String.eqb (fst call) l) calls
  then bump (label_sum l calls) (recorded lc l)
  else recorded lc l.
Proof.
  revert lc. induction calls as [|[label n] calls IH]; intros lc.
  - reflexivity.
  - cbn [run_incs fold_left existsb label_sum fst snd].
    fold (run_incs calls (LabeledCounter_inc label n lc)).
    rewrite IH, recorded_inc.
    destruct (String.eqb_spec label l) as [->|Hne]; cbn [orb]; [|reflexivity].
    destruct (existsb _ calls) eqn:Ex.
    + unfold bump. f_equal.
      rewrite Zplus_mod_idemp_l. f_equal. lia.
    + rewrite (label_sum_absent calls l Ex), Z.add_0_r. reflexivity.
Qed.

Lemma existsb_label_In (calls : list (string * Z)) (l : string) :
  existsb (fun call => String.eqb (fst call) l) calls = true <-> In l (map fst calls).
Proof.
  rewrite existsb_exists, in_map_iff. split.
  - intros [x [Hx E]]. apply String.eqb_eq in E. now exists x.
  - intros [x [E Hx]]. exists x. split; [assumption | now apply String.eqb_eq].
Qed.

(** C5. After any finite sequence of [inc(label, n)] calls run one after
    the other on a fresh LabeledCounter, the key set of [getAll()] is
    exactly the set of labels that were incremented, and the value under
    each of them is the sum of the arguments passed for it, modulo 2^64. *)
Theorem LabeledCounter_getAll_sums :
  forall (calls : list (string * Z)) (label : string),
    (SMap.In label (getAll (run_incs calls LabeledCounter_new))
       <-> In label (map fst calls)) /\
    SMap.find label (getAll (run_incs calls LabeledCounter_new)) =
      if existsb (fun call => String.eqb (fst call) label) calls
      then Some (label_sum label calls mod 2 ^ 64)
      else None.
Proof.
  intros calls label.
  pose proof (recorded_run_incs calls LabeledCounter_new label) as H.
  rewrite recorded_new in H. unfold recorded, bump in H.
  rewrite Z.add_0_l in H. split; [|exact H].
  rewrite SMapFacts.in_find_iff, H, <- existsb_label_In.
  destruct (existsb _ calls); split; congruence.
Qed.

Example getAll_example :
  SMap.elements
    (getAll (run_incs [("REQ", 1); ("EVENT", 2); ("REQ", 2 ^ 64 - 1); ("CLOSE", 5)]
                      LabeledCounter_new))
  = [("CLOSE", 5); ("EVENT", 2); ("REQ", 0)].
Proof. reflexivity. Qed.

(** *** The rendered text *)

Lemma append_assoc (a b c : string) :
  String.append (String.append a b) c = String.append a (String.append b c).
Proof.
  induction a as [|x a IH]; simpl; [reflexivity | now rewrite IH].
Qed.

Lemma append_empty_r (a : string) : String.append a "" = a.
Proof.
  induction a as [|x a IH]; simpl; [reflexivity | now rewrite IH].
Qed.

(** A loop that appends one piece per element writes the concatenation of
    the pieces behind what the stream already holds. *)
Lemma fold_left_append {A : Type} (g : A -> string) (l : list A) (out : string) :
  fold_left (fun out e => String.append out (g e)) l out
  = String.append out (String.concat "" (map g l)).
Proof.
  revert out. induction l as [|e l IH]; intros out; cbn [fold_left map].
  - simpl. now rewrite append_empty_r.
  - rewrite IH, append_assoc. f_equal.
    destruct l as [|e' l]; cbn [map String.concat].
    + now rewrite append_empty_r.
    + reflexivity.
Qed.

Lemma concat_empty_cons (x : string) (l : list string) :
  String.concat "" (x :: l) = String.append x (String.concat "" l).
Proof.
  destruct l; cbn [String.concat]; [now rewrite append_empty_r | reflexivity].
Qed.

(** [render] writes the three families one after the other, each from the
    snapshot [getAll] takes of its labelled counter. *)
Lemma render_families (pm : PrometheusMetrics) :
  render pm =
  String.append
    (family_text "nostr_client_messages_total" help_client "verb"
       (SMap.elements (getAll (nostrClientMessages pm))))
    (String.append
       (family_text "nostr_relay_messages_total" help_relay "verb"
          (SMap.elements (getAll (nostrRelayMessages pm))))
       (family_text "nostr_events_total" help_events "kind"
          (SMap.elements (getAll (nostrEventsByKind pm))))).
Proof.
  unfold render.
  rewrite (fold_left_pointwise _
            (fun out e => String.append out
               (sample_line "nostr_client_messages_total" "verb" e))
            (SMap.elements (getAll (nostrClientMessages pm))))
    by (intros a [verb count]; unfold sample_line; cbn [fst snd];
        rewrite !append_assoc; reflexivity).
  rewrite (fold_left_pointwise _
            (fun out e => String.append out
               (sample_line "nostr_relay_messages_total" "verb" e))
            (SMap.elements (getAll (nostrRelayMessages pm))))
    by (intros a [verb count]; unfold sample_line; cbn [fst snd];
        rewrite !append_assoc; reflexivity).
  rewrite (fold_left_pointwise _
            (fun out e => String.append out
               (sample_line "nostr_events_total" "kind" e))
            (SMap.elements (getAll (nostrEventsByKind pm))))
    by (intros a [verb count]; unfold sample_line; cbn [fst snd];
        rewrite !append_assoc; reflexivity).
  rewrite !fold_left_append.
  unfold family_text, family_header, help_client, help_relay, help_events.
  rewrite !append_assoc. reflexivity.
Qed.

Lemma eqlistA_eqke_eq {elt : Type} (l l' : list (string * elt)) :
  eqlistA (@SMapOrd.O.eqke elt) l l' -> l = l'.
Proof.
  induction 1 as [|[k v] [k' v'] l l' [Hk Hv] _ IH]; [reflexivity|].
  simpl in Hk, Hv. now subst.
Qed.

Lemma sorted_keys {elt : Type} (l : list (string * elt)) :
  Sorted (@SMap.lt_key elt) l -> StronglySorted String_as_OT.lt (map fst l).
Proof.
  intros H. apply Sorted_StronglySorted in H.
  - induction H as [|a l Hl IH Ha]; cbn [map]; constructor.
    + exact IH.
    + apply Forall_map. exact Ha.
  - intros x y z. unfold SMap.lt_key, SMap.Raw.PX.ltk.
    apply String_as_OT.lt_trans.
Qed.

Lemma In_elements_find {elt : Type} (m : SMap.t elt) (k : string) (v : elt) :
  In (k, v) (SMap.elements m) <-> SMap.find k m = Some v.
Proof.
  rewrite <- SMapFacts.find_mapsto_iff, SMapFacts.elements_mapsto_iff, InA_alt.
  split.
  - intros H. exists (k, v). split; [split; reflexivity | exact H].
  - intros [[k' v'] [[Hk Hv] H]]. simpl in Hk, Hv. now subst.
Qed.

(** The snapshot of a labelled counter, in iteration order, lists its
    labels in strictly ascending order with their counts. *)
Lemma samples_of_getAll (lc : LabeledCounter) :
  samples_of lc (SMap.elements (getAll lc)).
Proof.
  split.
  - apply sorted_keys, SMap.elements_3.
  - intros label count. rewrite In_elements_find, find_getAll.
    destruct (SMap.find label (counters lc)) as [[v]|]; cbn [option_map Counter_get value].
    + split; intros [= ->]; reflexivity.
    + split; discriminate.
Qed.

(** Labelled counters that record the same counts give the same snapshot. *)
Lemma elements_getAll_ext (a b : LabeledCounter) :
  (forall label, SMap.find label (counters a) = SMap.find label (counters b)) ->
  SMap.elements (getAll a) = SMap.elements (getAll b).
Proof.
  intros H. apply eqlistA_eqke_eq, SMapOrd.elements_Equal_eqlistA.
  intros label. now rewrite !find_getAll, H.
Qed.

(** *** The rendered text, line by line *)

Import PromText.

Lemma unlines_app (a b : list string) :
  unlines (a ++ b) = String.append (unlines a) (unlines b).
Proof.
  induction a as [|l a IH]; cbn [app unlines]; [reflexivity|].
  rewrite IH, append_assoc. reflexivity.
Qed.

(** What [render] appends for one pair is the sample and a terminator. *)
Lemma sample_line_written (name labelname : string) (sample : string * Z) :
  sample_line name labelname sample
  = String.append (written_entry name labelname sample) (String NL EmptyString).
Proof.
  unfold sample_line, written_entry, DQUOTE, Metrics.LF, QUOTE, NL.
  repeat (rewrite append_assoc || cbn [String.append]).
  reflexivity.
Qed.

Lemma concat_sample_lines (name labelname : string) (samples : list (string * Z)) :
  String.concat "" (map (sample_line name labelname) samples)
  = unlines (map (written_entry name labelname) samples).
Proof.
  induction samples as [|x samples IH]; [reflexivity|].
  cbn [map unlines]. rewrite concat_empty_cons, IH, sample_line_written.
  rewrite append_assoc. reflexivity.
Qed.

Lemma family_text_unlines (name help labelname HELP TYPE : string)
    (samples : list (string * Z)) :
  family_header name help = unlines [HELP; TYPE] ->
  family_text name help labelname samples
  = unlines (HELP :: TYPE :: map (written_entry name labelname) samples).
Proof.
  intros H. unfold family_text. rewrite concat_sample_lines, H.
  rewrite <- unlines_app. reflexivity.
Qed.

Lemma text_lines_line (l rest : string) :
  newline_free l = true ->
  text_lines (String.append l (String NL rest)) = l :: text_lines rest.
Proof.
  induction l as [|c l IH]; cbn [String.append text_lines newline_free].
  - intros _. now rewrite Ascii.eqb_refl.
  - intros H. apply andb_true_iff in H as [Hc Hl].
    apply negb_true_iff in Hc. rewrite Hc, (IH Hl). reflexivity.
Qed.

Lemma text_lines_unlines (ls : list string) :
  forallb newline_free ls = true -> text_lines (unlines ls) = ls.
Proof.
  induction ls as [|l ls IH]; cbn [forallb unlines]; [reflexivity|].
  intros H. apply andb_true_iff in H as [Hl Hls].
  rewrite (text_lines_line l _ Hl), (IH Hls). reflexivity.
Qed.

Lemma newline_free_app (a b : string) :
  newline_free (String.append a b) = newline_free a && newline_free b.
Proof.
  induction a as [|c a IH]; cbn [String.append newline_free]; [reflexivity|].
  now rewrite IH, andb_assoc.
Qed.

Lemma newline_free_digits (d : Decimal.uint) :
  newline_free (NilEmpty.string_of_uint d) = true.
Proof.
  induction d; cbn [NilEmpty.string_of_uint newline_free]; try reflexivity;
    rewrite IHd; reflexivity.
Qed.

Lemma newline_free_written (name labelname : string) (sample : string * Z) :
  newline_free name = true -> newline_free labelname = true ->
  newline_free (fst sample) = true ->
  newline_free (written_entry name labelname sample) = true.
Proof.
  intros Hn Hl Hs. unfold written_entry, show_uint64.
  repeat (rewrite newline_free_app || cbn [newline_free]).
  rewrite Hn, Hl, Hs, newline_free_digits. reflexivity.
Qed.

(** The digits [render] writes for a 64-bit count are its decimal numeral. *)
Lemma decimal_of_show (count : Z) : 0 <= count -> decimal_of count (show_uint64 count).
Proof.
  intros H. exists (N.to_uint (Z.to_N count)). split; [apply NilEmpty.usu|]. split.
  - rewrite <- DecimalN.Unsigned.to_of, DecimalN.Unsigned.of_to. reflexivity.
  - rewrite DecimalN.Unsigned.of_to. apply Z2N.id, H.
Qed.

Lemma Forall2_map_self {A B : Type} (R : A -> B -> Prop) (f : A -> B) (l : list A) :
  (forall x, In x l -> R x (f x)) -> Forall2 R l (map f l).
Proof.
  induction l as [|a l IH]; intros H; cbn [map]; constructor.
  - apply H. now left.
  - apply IH. intros x Hx. apply H. now right.
Qed.

Lemma forallb_map_self {A B : Type} (p : B -> bool) (f : A -> B) (l : list A) :
  (forall x, In x l -> p (f x) = true) -> forallb p (map f l) = true.
Proof.
  induction l as [|a l IH]; intros H; cbn [map forallb]; [reflexivity|].
  rewrite (H a (or_introl eq_refl)), IH; [reflexivity|].
  intros x Hx. apply H. now right.
Qed.

Lemma In_snapshot (lc : LabeledCounter) (label : string) (count : Z) :
  In (label, count) (SMap.elements (getAll lc)) ->
  SMap.find label (counters lc) = Some {| value := count |}.
Proof.
  apply (proj2 (samples_of_getAll lc)).
Qed.

Lemma snapshot_entries (lc : LabeledCounter) (name labelname : string) :
  (forall label c, SMap.find label (counters lc) = Some c -> 0 <= value c < 2 ^ 64) ->
  Forall2 (sample_entry name labelname)
          (SMap.elements (getAll lc))
          (map (written_entry name labelname) (SMap.elements (getAll lc))).
Proof.
  intros H. apply Forall2_map_self. intros [label count] Hin.
  exists (show_uint64 count). split; [|reflexivity].
  apply decimal_of_show. cbn [snd].
  apply In_snapshot in Hin. apply H in Hin. cbn [value] in Hin. lia.
Qed.

Lemma snapshot_newline_free (lc : LabeledCounter) (name labelname : string) :
  newline_free name = true -> newline_free labelname = true ->
  (forall label c, SMap.find label (counters lc) = Some c -> newline_free label = true) ->
  forallb newline_free
          (map (written_entry name labelname) (SMap.elements (getAll lc))) = true.
Proof.
  intros Hn Hl H. apply forallb_map_self. intros [label count] Hin.
  apply newline_free_written; [exact Hn | exact Hl |].
  cbn [fst]. apply In_snapshot in Hin. exact (H _ _ Hin).
Qed.

Lemma filter_all {A : Type} (p : A -> bool) (l : list A) :
  forallb p l = true -> filter p l = l.
Proof.
  induction l as [|a l IH]; cbn [forallb filter]; [reflexivity|].
  intros H. apply andb_true_iff in H as [Ha Hl]. now rewrite Ha, IH.
Qed.

(** The text of [render] as a sequence of terminated lines. *)
Lemma render_unlines (pm : PrometheusMetrics) :
  render pm =
  unlines
    (HELP_client :: TYPE_client ::
       map (written_entry "nostr_client_messages_total" "verb")
           (SMap.elements (getAll (nostrClientMessages pm)))
     ++ HELP_relay :: TYPE_relay ::
       map (written_entry "nostr_relay_messages_total" "verb")
           (SMap.elements (getAll (nostrRelayMessages pm)))
     ++ HELP_events :: TYPE_events ::
       map (written_entry "nostr_events_total" "kind")
           (SMap.elements (getAll (nostrEventsByKind pm)))).
Proof.
  rewrite render_families.
  rewrite (family_text_unlines _ _ _ HELP_client TYPE_client) by reflexivity.
  rewrite (family_text_unlines _ _ _ HELP_relay TYPE_relay) by reflexivity.
  rewrite (family_text_unlines _ _ _ HELP_events TYPE_events) by reflexivity.
  rewrite <- !unlines_app. reflexivity.
Qed.

(** C6 (amended). [render()] does not modify any counter: called through
    the singleton it leaves the process state as it was.  Its text is a
    function of the recorded counts only.  For a registry of 64-bit
    counters the text is, for each of the three families in turn, the
    family's HELP line and TYPE line followed by exactly one sample per
    recorded label, labels in strictly ascending lexicographic order; a
    sample is the metric name, the label written as it is between double
    quotes, and the count in decimal, followed by a line terminator.  When
    no recorded label contains a line terminator these are the lines of
    the text, so there is exactly one sample line per recorded label. *)
Theorem render_text_format :
  forall pm : PrometheusMetrics,
    (forall p : Process,
        instance p = Some pm -> read_instance render p = (render pm, p)) /\
    (forall pm' : PrometheusMetrics,
        (forall (f : Family) (label : string),
            SMap.find label (counters (family_counter f pm))
            = SMap.find label (counters (family_counter f pm'))) ->
        render pm' = render pm) /\
    (uint64_counters pm ->
     exists (clientMsgs relayMsgs events : list (string * Z))
            (clientLines relayLines eventLines : list string),
       samples_of (nostrClientMessages pm) clientMsgs /\
       samples_of (nostrRelayMessages pm) relayMsgs /\
       samples_of (nostrEventsByKind pm) events /\
       Forall2 (sample_entry "nostr_client_messages_total" "verb") clientMsgs clientLines /\
       Forall2 (sample_entry "nostr_relay_messages_total" "verb") relayMsgs relayLines /\
       Forall2 (sample_entry "nostr_events_total" "kind") events eventLines /\
       render pm =
       unlines (HELP_client :: TYPE_client :: clientLines
                ++ HELP_relay :: TYPE_relay :: relayLines
                ++ HELP_events :: TYPE_events :: eventLines) /\
       (labels_newline_free pm ->
        text_lines (render pm) =
          HELP_client :: TYPE_client :: clientLines
          ++ HELP_relay :: TYPE_relay :: relayLines
          ++ HELP_events :: TYPE_events :: eventLines /\
        filter is_sample_line (text_lines (render pm))
          = clientLines ++ relayLines ++ eventLines /\
        one_line_per_label pm)).
Proof.
  intros pm. split; [|split].
  - intros p Hp. unfold read_instance, getInstance. rewrite Hp. reflexivity.
  - intros pm' H. rewrite !render_families.
    pose proof (elements_getAll_ext _ _ (H ClientMsg)) as Hc.
    pose proof (elements_getAll_ext _ _ (H RelayMsg)) as Hr.
    pose proof (elements_getAll_ext _ _ (H EventKind)) as He.
    cbn [family_counter] in Hc, Hr, He.
    rewrite Hc, Hr, He. reflexivity.
  - intros U.
    set (s1 := SMap.elements (getAll (nostrClientMessages pm))).
    set (s2 := SMap.elements (getAll (nostrRelayMessages pm))).
    set (s3 := SMap.elements (getAll (nostrEventsByKind pm))).
    set (L1 := map (written_entry "nostr_client_messages_total" "verb") s1).
    set (L2 := map (written_entry "nostr_relay_messages_total" "verb") s2).
    set (L3 := map (written_entry "nostr_events_total" "kind") s3).
    exists s1, s2, s3, L1, L2, L3.
    split; [apply samples_of_getAll|].
    split; [apply samples_of_getAll|].
    split; [apply samples_of_getAll|].
    split; [apply snapshot_entries, (U ClientMsg)|].
    split; [apply snapshot_entries, (U RelayMsg)|].
    split; [apply snapshot_entries, (U EventKind)|].
    split; [apply render_unlines|].
    intros NF.
    assert (F1 : forallb newline_free L1 = true)
      by (apply snapshot_newline_free; [reflexivity | reflexivity | apply (NF ClientMsg)]).
    assert (F2 : forallb newline_free L2 = true)
      by (apply snapshot_newline_free; [reflexivity | reflexivity | apply (NF RelayMsg)]).
    assert (F3 : forallb newline_free L3 = true)
      by (apply snapshot_newline_free; [reflexivity | reflexivity | apply (NF EventKind)]).
    assert (T : text_lines (render pm) =
                HELP_client :: TYPE_client :: L1
                ++ HELP_relay :: TYPE_relay :: L2
                ++ HELP_events :: TYPE_events :: L3).
    { rewrite render_unlines. apply text_lines_unlines.
      repeat (rewrite forallb_app || cbn [forallb]).
      rewrite F1, F2, F3. reflexivity. }
    assert (S1 : forallb is_sample_line L1 = true)
      by (apply forallb_map_self; intros x _; reflexivity).
    assert (S2 : forallb is_sample_line L2 = true)
      by (apply forallb_map_self; intros x _; reflexivity).
    assert (S3 : forallb is_sample_line L3 = true)
      by (apply forallb_map_self; intros x _; reflexivity).
    assert (Fl : filter is_sample_line (text_lines (render pm)) = L1 ++ L2 ++ L3).
    { rewrite T.
      change (HELP_client :: TYPE_client :: L1 ++ HELP_relay :: TYPE_relay :: L2
              ++ HELP_events :: TYPE_events :: L3)
        with ([HELP_client; TYPE_client] ++ L1 ++ [HELP_relay; TYPE_relay] ++ L2
              ++ [HELP_events; TYPE_events] ++ L3).
      rewrite !filter_app.
      rewrite (filter_all _ L1 S1), (filter_all _ L2 S2), (filter_all _ L3 S3).
      reflexivity. }
    split; [exact T|]. split; [exact Fl|].
    unfold one_line_per_label, recorded_label_count. rewrite Fl.
    rewrite !length_app. unfold L1, L2, L3. rewrite !length_map.
    unfold s1, s2, s3. rewrite Nat.add_assoc. reflexivity.
Qed.

(** The claim as the specification words it fails for a label that
    contains a line terminator: one recorded label, two sample lines. *)
Lemma render_one_line_per_label_counterexample :
  recorded_label_count registry_with_two_line_label = 1%nat /\
  filter is_sample_line (text_lines (render registry_with_two_line_label))
    = [ String.append "nostr_client_messages_total{verb="
          (String QUOTE (String.append "a" (String QUOTE "} 1")));
        String.append "nostr_client_messages_total{verb="
          (String QUOTE (String.append "b" (String QUOTE "} 2"))) ] /\
  ~ one_line_per_label registry_with_two_line_label.
Proof.
  split; [reflexivity|]. split; [reflexivity|].
  unfold one_line_per_label. vm_compute. discriminate.
Qed.


Example render_fresh :
  render PrometheusMetrics_new =
"# HELP nostr_client_messages_total Total number of Nostr client messages by verb
# TYPE nostr_client_messages_total counter
# HELP nostr_relay_messages_total Total number of Nostr relay messages by verb
# TYPE nostr_relay_messages_total counter
# HELP nostr_events_total Total number of Nostr events by kind
# TYPE nostr_events_total counter
".
Proof. reflexivity. Qed.

Example render_after_macros :
  fst (read_instance render
         (PROM_INC_EVENT_KIND "1"
            (PROM_INC_CLIENT_MSG "REQ"
               (PROM_INC_CLIENT_MSG "EVENT"
                  (PROM_INC_CLIENT_MSG "REQ" Process_start)))))
  = String.append
      (family_text "nostr_client_messages_total" help_client "verb"
                   [("EVENT", 1); ("REQ", 2)])
      (String.append
         (family_text "nostr_relay_messages_total" help_relay "verb" [])
         (family_text "nostr_events_total" help_events "kind" [("1", 1)])).
Proof. reflexivity. Qed.

Example sample_line_text :
  sample_line "nostr_events_total" "kind" ("30023", 17)
  = String.append "nostr_events_total{kind="
      (String.append DQUOTE
         (String.append "30023" (String.append DQUOTE (String.append "} 17" LF)))).
Proof. reflexivity. Qed.

(** *** The singleton *)

Lemma getInstance_initialised (p : Process) :
  instance (snd (getInstance p)) = Some (fst (getInstance p)).
Proof.
  unfold getInstance. destruct (instance p) as [pm|] eqn:E; cbn [fst snd]; auto.
Qed.

Lemma getInstance_again (p : Process) :
  getInstance (snd (getInstance p)) = getInstance p.
Proof.
  unfold getInstance at 2 3.
  destruct (instance p) as [pm|] eqn:E; cbn [fst snd].
  - unfold getInstance. now rewrite E.
  - reflexivity.
Qed.

Lemma getInstance_through (m : PrometheusMetrics -> PrometheusMetrics) (p : Process) :
  getInstance (through_instance m p)
  = (m (fst (getInstance p)), through_instance m p).
Proof.
  unfold through_instance.
  destruct (getInstance p) as [pm p1]. reflexivity.
Qed.

Lemma family_counter_inc (f g : Family) (label : string) (n : Z) (pm : PrometheusMetrics) :
  family_counter g (family_inc f label n pm) =
  match f, g with
  | ClientMsg, ClientMsg | RelayMsg, RelayMsg | EventKind, EventKind =>
      LabeledCounter_inc label n (family_counter g pm)
  | _, _ => family_counter g pm
  end.
Proof.
  destruct f, g; reflexivity.
Qed.

(** C4. [getInstance()] returns the same process-wide registry on every
    call: the first call constructs it, a later call returns it as it is and
    constructs nothing.  What is written through one call is what any other
    call returns, so an increment made through one call shows in [getAll()]
    and [render()] reached through another; all callers share one state. *)
Theorem getInstance_singleton :
  forall p : Process,
    let registry := fst (getInstance p) in
    let p1 := snd (getInstance p) in
    getInstance p1 = (registry, p1) /\
    instance p1 = Some registry /\
    forall (f : Family) (label : string) (n : Z),
      let p2 := through_instance (family_inc f label n) p1 in
      let seen := fst (getInstance p2) in
      getInstance p2 = (family_inc f label n registry, p2) /\
      SMap.find label (getAll (family_counter f seen))
        = bump n (SMap.find label (getAll (family_counter f registry))) /\
      (forall l, l <> label ->
         SMap.find l (getAll (family_counter f seen))
         = SMap.find l (getAll (family_counter f registry))) /\
      read_instance render p2 = (render (family_inc f label n registry), p2).
Proof.
  intros p registry p1.
  assert (H1 : getInstance p1 = (registry, p1)).
  { subst registry p1. rewrite getInstance_again. now destruct (getInstance p). }
  split; [exact H1|]. split; [apply getInstance_initialised|].
  intros f label n p2 seen.
  assert (H2 : getInstance p2 = (family_inc f label n registry, p2)).
  { subst p2. rewrite getInstance_through, H1. reflexivity. }
  assert (Hseen : seen = family_inc f label n registry).
  { subst seen. now rewrite H2. }
  split; [exact H2|].
  rewrite Hseen, family_counter_inc.
  assert (E : match f, f with
              | ClientMsg, ClientMsg | RelayMsg, RelayMsg | EventKind, EventKind =>
                  LabeledCounter_inc label n (family_counter f registry)
              | _, _ => family_counter f registry
              end = LabeledCounter_inc label n (family_counter f registry))
    by (destruct f; reflexivity).
  rewrite E. clear E.
  split; [|split].
  - pose proof (recorded_inc (family_counter f registry) label n label) as R.
    unfold recorded in R. now rewrite String.eqb_refl in R.
  - intros l Hl.
    pose proof (recorded_inc (family_counter f registry) label n l) as R.
    unfold recorded in R. apply not_eq_sym, String.eqb_neq in Hl.
    now rewrite Hl in R.
  - unfold read_instance. now rewrite H2.
Qed.

Example singleton_shared_state :
  let p := PROM_INC_CLIENT_MSG "REQ" (PROM_INC_CLIENT_MSG "REQ" Process_start) in
  SMap.elements (fst (read_instance (fun pm => getAll (nostrClientMessages pm)) p))
  = [("REQ", 2)].
Proof. reflexivity. Qed.

(** ** The deployed configuration *)

Import Deploy.

(** C7. In the default configuration the lifetime after which ephemeral
    events are deleted from the database,
    [events.ephemeralEventsLifetimeSeconds], is 300 seconds; it is a setting
    of the configuration file, whatever host and contact the file is
    written for. *)
Theorem default_ephemeral_lifetime :
  forall HOST ADMIN_EMAIL : string,
    lookup ["events"; "ephemeralEventsLifetimeSeconds"] (strfry_conf HOST ADMIN_EMAIL)
    = Some (VNum 300).
Proof.
  intros HOST ADMIN_EMAIL. reflexivity.
Qed.

(** C8. The default sizes of the worker pools, each a setting of the block
    [relay.numThreads]: ingester 3, reqWorker 3, reqMonitor 3,
    negentropy 2. *)
Theorem default_pool_sizes :
  forall HOST ADMIN_EMAIL : string,
    let conf := strfry_conf HOST ADMIN_EMAIL in
    lookup ["relay"; "numThreads"; "ingester"] conf = Some (VNum 3) /\
    lookup ["relay"; "numThreads"; "reqWorker"] conf = Some (VNum 3) /\
    lookup ["relay"; "numThreads"; "reqMonitor"] conf = Some (VNum 3) /\
    lookup ["relay"; "numThreads"; "negentropy"] conf = Some (VNum 2).
Proof.
  intros HOST ADMIN_EMAIL conf. repeat split; reflexivity.
Qed.

Example deploy_writes_defaults :
  match deploy "./deploy.sh" ["my-relay.example.com"] with
  | Some (ConfigWritten path conf) =>
      String.eqb path "/etc/strfry.conf"
      && match lookup ["relay"; "info"; "contact"] conf with
         | Some (VStr s) => String.eqb s "admin@my-relay.example.com"
         | _ => false
         end
      && match lookup ["db"] conf with
         | Some (VStr s) => String.eqb s "/var/lib/strfry/strfry-db/"
         | _ => false
         end
  | _ => false
  end = true.
Proof. reflexivity. Qed.

Example deploy_usage :
  deploy "./deploy.sh" [] =
    Some (UsageError [ "Usage: ./deploy.sh HOST [ADMIN_EMAIL]";
                       "Example: ./deploy.sh my-relay.example.com admin@example.com" ])
  /\ deploy "./deploy.sh" ["a"; "b"; "c"] = deploy "./deploy.sh" [].
Proof. split; reflexivity. Qed.

(** ** The subscription cap *)

Import ConnState.

Lemma filter_length_same {A : Type} (f : A -> bool) (l : list A) :
  length (filter f l) = length l -> filter f l = l.
Proof.
  induction l as [|a l IH]; simpl; [reflexivity|].
  pose proof (filter_length_le f l) as Hle.
  destruct (f a); simpl; intros H.
  - f_equal. apply IH. lia.
  - lia.
Qed.

Lemma close_sub_length {FG : Type} (subID : string) (c : Conn FG) :
  (length (close_sub subID c) <= length c)%nat.
Proof.
  apply filter_length_le.
Qed.

Lemma handle_keeps_cap {FG : Type} (cap : Z) (msg : Incoming FG) (c : Conn FG) :
  Z.of_nat (length c) <= cap ->
  Z.of_nat (length (snd (handle cap msg c))) <= cap.
Proof.
  intros H. destruct msg as [subID fg|subID]; cbn [handle snd].
  - unfold open_sub.
    pose proof (close_sub_length subID c) as Hc.
    destruct (Z.gtb_spec (Z.of_nat (length (close_sub subID c)) + 1) cap);
      cbn [snd]; [lia|].
    rewrite length_app. cbn [length]. lia.
  - pose proof (close_sub_length subID c). lia.
Qed.

Lemma run_keeps_cap {FG : Type} (cap : Z) (msgs : list (Incoming FG)) (c : Conn FG) :
  Z.of_nat (length c) <= cap ->
  Z.of_nat (length (run cap msgs c)) <= cap.
Proof.
  revert c. induction msgs as [|msg msgs IH]; intros c H; cbn [run fold_left].
  - exact H.
  - apply IH, handle_keeps_cap, H.
Qed.

Lemma rejected_unchanged {FG : Type} (cap : Z) (subID : string) (fg : FG)
    (c : Conn FG) (text : string) :
  Z.of_nat (length c) <= cap ->
  fst (open_sub cap subID fg c) = NOTICE text ->
  snd (open_sub cap subID fg c) = c.
Proof.
  intros H. unfold open_sub.
  pose proof (close_sub_length subID c) as Hc.
  destruct (Z.gtb_spec (Z.of_nat (length (close_sub subID c)) + 1) cap);
    cbn [fst snd]; [intros _ | discriminate].
  apply filter_length_same. unfold close_sub in *. lia.
Qed.

(** C9. On every connection at most [maxSubsPerConnection] subscriptions
    are open at any time (the default configuration sets 20): after any
    sequence of REQ and CLOSE messages on a new connection the number of
    open subscriptions is within the cap, a REQ that would exceed it is
    answered with a notice, and a REQ answered with a notice leaves the open
    subscriptions as they were. *)
Theorem subscription_cap :
  forall (FG : Type) (maxSubsPerConnection : Z) (msgs : list (Incoming FG)),
    0 <= maxSubsPerConnection ->
    let c := run maxSubsPerConnection msgs [] in
    Z.of_nat (length c) <= maxSubsPerConnection /\
    (forall (subID : string) (fg : FG),
        Z.of_nat (length (close_sub subID c)) >= maxSubsPerConnection ->
        exists text, fst (open_sub maxSubsPerConnection subID fg c) = NOTICE text) /\
    (forall (subID : string) (fg : FG) (text : string),
        fst (open_sub maxSubsPerConnection subID fg c) = NOTICE text ->
        snd (open_sub maxSubsPerConnection subID fg c) = c) /\
    (forall HOST ADMIN_EMAIL : string,
        configured_cap (strfry_conf HOST ADMIN_EMAIL) = Some 20).
Proof.
  intros FG cap msgs Hcap c.
  assert (Hc : Z.of_nat (length c) <= cap).
  { subst c. apply run_keeps_cap. simpl. exact Hcap. }
  split; [exact Hc|]. split; [|split].
  - intros subID fg Hfull. unfold open_sub.
    destruct (Z.gtb_spec (Z.of_nat (length (close_sub subID c)) + 1) cap);
      cbn [fst]; [now eexists | lia].
  - intros subID fg text. now apply rejected_unchanged.
  - intros HOST ADMIN_EMAIL. reflexivity.
Qed.

Lemma subscription_cap_witness :
  Z.of_nat (length (run 2 [REQ "a" tt; REQ "b" tt; REQ "c" tt; CLOSE "a"; REQ "b" tt; REQ "d" tt] []))
  <= 2.
Proof.
  refine (proj1 (subscription_cap unit 2 _ _)). lia.
Defined.

Example cap_example :
  map fst (run 2 [REQ "a" tt; REQ "b" tt; REQ "c" tt; CLOSE "a"; REQ "b" tt; REQ "d" tt] [])
  = ["b"; "d"].
Proof. reflexivity. Qed.

(** ** Monotone quadIDs *)

Import EventStore.

Lemma StronglySorted_app {A : Type} (R : A -> A -> Prop) (l1 l2 : list A) :
  StronglySorted R l1 -> StronglySorted R l2 ->
  (forall x y, In x l1 -> In y l2 -> R x y) ->
  StronglySorted R (l1 ++ l2).
Proof.
  intros H1 H2 H. induction H1 as [|a l1 Hl1 IH Ha]; cbn [app].
  - exact H2.
  - constructor.
    + apply IH. intros x y Hx Hy. apply H; [now right | exact Hy].
    + apply Forall_app. split; [exact Ha|].
      apply Forall_forall. intros y Hy. apply H; [now left | exact Hy].
Qed.

Lemma ascending_within_nil (lo hi : N) : (lo <= hi)%N -> ascending_within lo [] hi.
Proof.
  intros H. repeat split; [constructor | constructor | exact H].
Qed.

Lemma ascending_within_app (a b c : N) (r1 r2 : list (N * Event)) :
  ascending_within a r1 b -> ascending_within b r2 c ->
  ascending_within a (r1 ++ r2) c.
Proof.
  intros (S1 & F1 & L1) (S2 & F2 & L2). unfold ascending_within.
  rewrite map_app. repeat split.
  - apply StronglySorted_app; [exact S1 | exact S2 |].
    intros x y Hx Hy.
    rewrite Forall_forall in F1, F2.
    specialize (F1 x Hx). specialize (F2 y Hy). lia.
  - apply Forall_app. split.
    + eapply Forall_impl; [|exact F1]. cbv beta. intros q Hq. lia.
    + eapply Forall_impl; [|exact F2]. cbv beta. intros q Hq. lia.
  - lia.
Qed.

Lemma delete_row_lastQuadID (q : N) (st : Store) :
  lastQuadID (delete_row q st) = lastQuadID st.
Proof. reflexivity. Qed.

(** One [install]: the counter never goes back, and a row that is stored
    carries the identifier next to the old counter, which is the new
    counter. *)
Lemma install_step (eph : bool) (ev : Event) (st : Store) :
  (lastQuadID st <= lastQuadID (snd (install eph ev st)))%N /\
  forall row, stored_row ev (fst (install eph ev st)) = Some row ->
    fst row = (lastQuadID st + 1)%N /\
    lastQuadID (snd (install eph ev st)) = (lastQuadID st + 1)%N.
Proof.
  unfold install.
  destruct (byId (id ev) st); cbn [fst snd stored_row].
  { split; [lia | discriminate]. }
  destruct (winner ev st) as [[q0 old]|].
  - destruct (_ || _); cbn [fst snd stored_row].
    { split; [lia | discriminate]. }
    rewrite delete_row_lastQuadID.
    destruct (is_ephemeral (kind ev)); cbn [lastQuadID].
    + split; [destruct eph; lia | discriminate].
    + split; [lia|]. intros row [= <-]. cbn [fst]. split; reflexivity.
  - cbn [fst snd stored_row].
    destruct (is_ephemeral (kind ev)); cbn [lastQuadID].
    + split; [destruct eph; lia | discriminate].
    + split; [lia|]. intros row [= <-]. cbn [fst]. split; reflexivity.
Qed.

Lemma install_batch_ascending (eph : bool) (batch : list Event) (st : Store) :
  ascending_within (lastQuadID st)
                   (fst (install_batch eph batch st))
                   (lastQuadID (snd (install_batch eph batch st))).
Proof.
  revert st. induction batch as [|ev rest IH]; intros st; cbn [install_batch].
  - apply ascending_within_nil. cbn [snd]. lia.
  - destruct (install_step eph ev st) as [Hmono Hrow].
    destruct (install eph ev st) as [o st1]. cbn [fst snd] in Hmono, Hrow.
    specialize (IH st1).
    destruct (install_batch eph rest st1) as [rows st2]. cbn [fst snd] in IH |- *.
    destruct (stored_row ev o) as [row|].
    + destruct (Hrow row eq_refl) as [Hq Hl].
      change (row :: rows) with ([row] ++ rows).
      apply ascending_within_app with (b := lastQuadID st1); [|exact IH].
      unfold ascending_within. cbn [map]. repeat split.
      * constructor; constructor.
      * constructor; [lia | constructor].
      * lia.
    + destruct IH as (S & F & L). repeat split.
      * exact S.
      * eapply Forall_impl; [|exact F]. cbv beta. intros q Hq. lia.
      * lia.
Qed.

Lemma writer_run_ascending (eph : bool) (rounds : list (bool * list Event)) (st : Store) :
  ascending_within (lastQuadID st)
                   (fst (writer_run eph rounds st))
                   (lastQuadID (snd (writer_run eph rounds st))).
Proof.
  revert st. induction rounds as [|[commit_ok batch] rest IH]; intros st;
    cbn [writer_run].
  - apply ascending_within_nil. cbn [snd]. lia.
  - assert (H1 : ascending_within (lastQuadID st)
                   (fst (writer_round eph commit_ok batch st))
                   (lastQuadID (snd (writer_round eph commit_ok batch st)))).
    { unfold writer_round. destruct commit_ok.
      - apply install_batch_ascending.
      - apply ascending_within_nil. cbn [snd]. lia. }
    destruct (writer_round eph commit_ok batch st) as [rows st1].
    cbn [fst snd] in H1. specialize (IH st1).
    destruct (writer_run eph rest st1) as [rows' st2]. cbn [fst snd] in IH |- *.
    eapply ascending_within_app; eassumption.
Qed.

Lemma StronglySorted_app_inv_lt (l1 l2 : list N) (x y : N) :
  StronglySorted N.lt (l1 ++ x :: l2) -> In y l2 -> (x < y)%N.
Proof.
  induction l1 as [|a l1 IH]; cbn [app]; intros H Hy.
  - inversion H as [|? ? _ Hall]; subst.
    rewrite Forall_forall in Hall. now apply Hall.
  - inversion H; subst. now apply IH.
Qed.

(** C10. Across every sequence of commits the quadIDs given to stored
    events increase strictly: the rows committed, in commit order, carry
    strictly ascending quadIDs, so of any two committed events the later
    has the greater quadID and no two share one.  This holds from any
    store, whether a round commits or fails, and whether or not an ephemeral
    event consumes an identifier. *)
Theorem quadID_strictly_increasing :
  forall (ephemeral_consumes_id : bool) (rounds : list (bool * list Event)) (st : Store),
    let committed := fst (writer_run ephemeral_consumes_id rounds st) in
    StronglySorted N.lt (map fst committed) /\
    (forall before q1 e1 between q2 e2 after,
        committed = before ++ (q1, e1) :: between ++ (q2, e2) :: after ->
        (q1 < q2)%N) /\
    Forall (fun q => lastQuadID st < q)%N (map fst committed).
Proof.
  intros eph rounds st committed.
  destruct (writer_run_ascending eph rounds st) as (S & F & L).
  fold committed in S, F. split; [exact S|]. split.
  - intros before q1 e1 between q2 e2 after E.
    rewrite E in S. rewrite map_app in S. cbn [map fst] in S.
    eapply StronglySorted_app_inv_lt; [exact S|].
    rewrite map_app. apply in_or_app. right. now left.
  - eapply Forall_impl; [|exact F]. cbv beta. intros q Hq. lia.
Qed.

Example writer_example :
  map (fun row => (fst row, id (snd row)))
      (fst (writer_run true
              [ (true, [sample_event "aa" 1 1000; sample_event "aa" 1 1000; sample_event "k0" 0 100; sample_event "k0old" 0 50]);
                (false, [sample_event "lost" 1 1]);
                (true, [sample_event "eph" 20001 5; sample_event "k0new" 0 200; sample_event "bb" 1 7]) ]
              Store_empty))
  = [(1%N, "aa"); (2%N, "k0"); (4%N, "k0new"); (5%N, "bb")].
Proof. reflexivity. Qed.

Example writer_example_table :
  map (fun row => (fst row, id (snd row)))
      (primary (snd (writer_run false
              [ (true, [sample_event "aa" 1 1000; sample_event "aa" 1 1000; sample_event "k0" 0 100; sample_event "k0old" 0 50]);
                (true, [sample_event "eph" 20001 5; sample_event "k0new" 0 200; sample_event "bb" 1 7]) ]
              Store_empty)))
  = [(1%N, "aa"); (3%N, "k0new"); (4%N, "bb")].
Proof. reflexivity. Qed.

(** *** The 64-bit representation *)

(** One [install] advances the counter by at most one. *)
Lemma install_counter_step (eph : bool) (e : Event) (st : Store) :
  (lastQuadID (snd (install eph e st)) <= lastQuadID st + 1)%N.
Proof.
  unfold install.
  destruct (byId (id e) st); cbn [snd]; [lia|].
  destruct (winner e st) as [[q0 old]|].
  - destruct (_ || _); cbn [snd]; [lia|].
    rewrite delete_row_lastQuadID.
    destruct (is_ephemeral (kind e)); cbn [lastQuadID]; [destruct eph|]; lia.
  - cbn [snd].
    destruct (is_ephemeral (kind e)); cbn [lastQuadID]; [destruct eph|]; lia.
Qed.

Lemma install_batch_counter (eph : bool) (batch : list Event) (st : Store) :
  (lastQuadID (snd (install_batch eph batch st))
   <= lastQuadID st + N.of_nat (length batch))%N.
Proof.
  revert st. induction batch as [|e rest IH]; intros st; cbn [install_batch].
  - cbn [snd length]. lia.
  - pose proof (install_counter_step eph e st) as H1.
    destruct (install eph e st) as [o st1]. cbn [snd] in H1.
    specialize (IH st1).
    destruct (install_batch eph rest st1) as [rows st2]. cbn [snd] in IH |- *.
    cbn [length]. lia.
Qed.

Lemma writer_run_counter (eph : bool) (rounds : list (bool * list Event)) (st : Store) :
  (lastQuadID (snd (writer_run eph rounds st))
   <= lastQuadID st + N.of_nat (length (concat (map snd rounds))))%N.
Proof.
  revert st. induction rounds as [|[commit_ok batch] rest IH]; intros st;
    cbn [writer_run map snd concat].
  - cbn [snd length]. lia.
  - assert (H1 : (lastQuadID (snd (writer_round eph commit_ok batch st))
                  <= lastQuadID st + N.of_nat (length batch))%N).
    { unfold writer_round. destruct commit_ok.
      - apply install_batch_counter.
      - cbn [snd]. lia. }
    destruct (writer_round eph commit_ok batch st) as [rows st1]. cbn [snd] in H1.
    specialize (IH st1).
    destruct (writer_run eph rest st1) as [rows' st2]. cbn [snd] in IH |- *.
    rewrite length_app. lia.
Qed.

(** As long as the identifier space is not exhausted, every quadID handed
    out is a 64-bit value: the unbounded identifiers of the model and a
    64-bit counter agree. *)
Lemma quadID_fits_uint64 (eph : bool) (rounds : list (bool * list Event)) (st : Store) :
  (lastQuadID st + N.of_nat (length (concat (map snd rounds))) < 2 ^ 64)%N ->
  Forall (fun q => q < 2 ^ 64)%N (map fst (fst (writer_run eph rounds st))).
Proof.
  intros H.
  destruct (writer_run_ascending eph rounds st) as (_ & F & _).
  pose proof (writer_run_counter eph rounds st) as C.
  eapply Forall_impl; [|exact F]. cbv beta. intros q Hq. lia.
Qed.

(** * Further properties *)

(** ** SubId: errors, representation, equality *)

Lemma bad_byte_decidable (c : ascii) :
  ((32 <= N_of_ascii c <= 126)%N /\ c <> "034"%char /\ c <> "\"%char)
  \/ ((N_of_ascii c < 32)%N \/ (126 < N_of_ascii c)%N \/ c = "034"%char \/ c = "\"%char).
Proof.
  destruct (ascii_dec c "034") as [->|Hq]; [right; auto|].
  destruct (ascii_dec c "\") as [->|Hb]; [right; auto|].
  destruct (N.lt_ge_cases (N_of_ascii c) 32); [right; auto|].
  destruct (N.lt_ge_cases 126 (N_of_ascii c)); [right; auto|].
  left. repeat split; assumption.
Qed.

Lemma badChar_true_iff (sgn : bool) (c : ascii) :
  badChar sgn c = true <->
  (N_of_ascii c < 32)%N \/ (126 < N_of_ascii c)%N \/ c = "034"%char \/ c = "\"%char.
Proof.
  pose proof (badChar_false_iff sgn c) as F.
  destruct (badChar sgn c).
  - split; [intros _ | reflexivity].
    destruct (bad_byte_decidable c) as [G|B]; [|exact B].
    apply F in G. discriminate.
  - split; [discriminate|].
    intros B. destruct (proj1 F eq_refl) as (R & Hq & Hb).
    destruct B as [B|[B|[B|B]]]; [lia | lia | contradiction | contradiction].
Qed.

(** X1. Which exception the constructor throws: the length error exactly
    for the empty string and for strings of more than 64 bytes, whatever
    their bytes; the character error exactly for strings of 1 to 64 bytes
    one of whose bytes is below 0x20, above 0x7E, a double quote or a
    backslash. *)
Theorem SubId_ctor_error_kind :
  forall (sgn : bool) (uninit : list ascii) (val : string),
    (SubId_ctor sgn uninit val = Throw "invalid subscription id length"
       <-> (String.length val = 0 \/ 64 < String.length val)%nat) /\
    (SubId_ctor sgn uninit val = Throw "invalid character in subscription id"
       <-> (1 <= String.length val <= 64)%nat /\
           exists c, In c (list_ascii_of_string val) /\
             ((N_of_ascii c < 32)%N \/ (126 < N_of_ascii c)%N
              \/ c = "034"%char \/ c = "\"%char)).
Proof.
  intros sgn uninit val. unfold SubId_ctor, MAX_SUBID_SIZE.
  destruct (Z.eqb_spec (Z.of_nat (String.length val)) 0) as [E0|N0]; simpl orb.
  { split; split; try reflexivity; try discriminate; lia. }
  destruct (Z.gtb_spec (Z.of_nat (String.length val)) 64) as [G|G].
  { split; split; try reflexivity; try discriminate; lia. }
  destruct (existsb (badChar sgn) (list_ascii_of_string val)) eqn:Eb.
  - split; split; try discriminate; try lia.
    + intros _. split; [lia|].
      apply existsb_exists in Eb as [c [Hc Hb]].
      exists c. split; [exact Hc | now apply badChar_true_iff in Hb].
    + reflexivity.
  - split; split; try discriminate; try lia.
    intros [_ [c [Hc Hb]]]. exfalso.
    apply badChar_true_iff with (sgn := sgn) in Hb.
    assert (existsb (badChar sgn) (list_ascii_of_string val) = true)
      by (apply existsb_exists; now exists c).
    congruence.
Qed.

(** X2. What the constructor writes: into a buffer of 65 bytes it puts the
    length in byte 0 and the characters in bytes 1 to the length; the
    buffer keeps its size and every byte behind the characters keeps the
    content the storage had. *)
Theorem SubId_ctor_layout :
  forall (sgn : bool) (uninit : list ascii) (val : string) (id : SubId),
    length uninit = 65%nat ->
    SubId_ctor sgn uninit val = Ok id ->
    length (buf id) = 65%nat /\
    N_of_ascii (nth 0 (buf id) zero) = N.of_nat (String.length val) /\
    (forall i, (i < String.length val)%nat ->
       nth (1 + i) (buf id) zero = nth i (list_ascii_of_string val) zero) /\
    (forall i, (String.length val < i)%nat ->
       nth i (buf id) zero = nth i uninit zero).
Proof.
  intros sgn uninit val id Hlen Hok.
  destruct (SubId_ctor_buf sgn uninit val id Hlen Hok) as [Hb Hr].
  rewrite Hb. repeat split.
  - cbn [length]. rewrite length_app, length_skipn, length_list_ascii_of_string. lia.
  - cbn [nth]. unfold char_of_size.
    rewrite Z.mod_small by lia. rewrite N_ascii_embedding by lia. lia.
  - intros i Hi. cbn [Nat.add nth].
    apply app_nth1. now rewrite length_list_ascii_of_string.
  - intros i Hi. destruct i as [|i]; [lia|]. cbn [nth].
    rewrite app_nth2 by (rewrite length_list_ascii_of_string; lia).
    rewrite length_list_ascii_of_string, nth_skipn. f_equal. lia.
Qed.

Lemma SubId_ctor_layout_witness :
  exists id, SubId_ctor false (repeat "x"%char 65) "abc" = Ok id /\
             length (buf id) = 65%nat /\ nth 4 (buf id) zero = "x"%char.
Proof.
  eexists. split; [reflexivity|].
  pose proof (SubId_ctor_layout false (repeat "x"%char 65) "abc" _ eq_refl eq_refl)
    as (L & _ & _ & R).
  split; [exact L | exact (R 4%nat ltac:(simpl; lia))].
Defined.

(** X3. Equality of constructed SubIds is equality of the strings they
    were made from, whatever the two storages held before; and on all
    SubIds [operator==] is reflexive, symmetric and transitive. *)
Theorem SubId_eq_strings :
  forall (sgn : bool) (u1 u2 : list ascii) (s1 s2 : string) (a b : SubId),
    length u1 = 65%nat -> length u2 = 65%nat ->
    SubId_ctor sgn u1 s1 = Ok a ->
    SubId_ctor sgn u2 s2 = Ok b ->
    (SubId_eq sgn a b = true <-> s1 = s2) /\
    (forall x, SubId_eq sgn x x = true) /\
    (forall x y, SubId_eq sgn x y = SubId_eq sgn y x) /\
    (forall x y z, SubId_eq sgn x y = true -> SubId_eq sgn y z = true ->
                   SubId_eq sgn x z = true).
Proof.
  intros sgn u1 u2 s1 s2 a b H1 H2 Ha Hb.
  pose proof (sv_of_ctor sgn u1 s1 a H1 Ha) as Sa.
  pose proof (sv_of_ctor sgn u2 s2 b H2 Hb) as Sb.
  unfold SubId_eq. split; [split|split; [|split]].
  - intros E. apply String.eqb_eq in E. congruence.
  - intros E. apply String.eqb_eq. congruence.
  - intros x. apply String.eqb_refl.
  - intros x y. apply String.eqb_sym.
  - intros x y z Exy Eyz. apply String.eqb_eq in Exy, Eyz.
    apply String.eqb_eq. congruence.
Qed.

Lemma SubId_eq_strings_witness :
  exists a b, SubId_ctor true (repeat "x"%char 65) "s1" = Ok a /\
              SubId_ctor true blank_storage "s1" = Ok b /\
              SubId_eq true a b = true.
Proof.
  eexists. eexists. split; [reflexivity|]. split; [reflexivity|].
  exact (proj2 (proj1 (SubId_eq_strings true (repeat "x"%char 65) blank_storage
                         "s1" "s1" _ _ eq_refl eq_refl eq_refl eq_refl)) eq_refl).
Defined.

(** X4. A SubId always decodes to an acceptable string: [sv()] of a
    constructed SubId satisfies the constraints of the constructor, so
    constructing again from it succeeds and gives an equal SubId. *)
Theorem SubId_reconstruct :
  forall (sgn : bool) (uninit uninit' : list ascii) (val : string) (id : SubId),
    length uninit = 65%nat -> length uninit' = 65%nat ->
    SubId_ctor sgn uninit val = Ok id ->
    spec_valid_subid (sv sgn id) /\
    exists id', SubId_ctor sgn uninit' (sv sgn id) = Ok id' /\
                SubId_eq sgn id id' = true.
Proof.
  intros sgn uninit uninit' val id H H' Hok.
  pose proof (sv_of_ctor sgn uninit val id H Hok) as Hsv.
  assert (Hv : spec_valid_subid val).
  { apply (SubId_ctor_ok_iff sgn uninit val). now rewrite Hok. }
  rewrite Hsv. split; [exact Hv|].
  apply (SubId_ctor_ok_iff sgn uninit' val) in Hv.
  destruct (SubId_ctor sgn uninit' val) as [id'|] eqn:E; [|discriminate].
  exists id'. split; [reflexivity|].
  unfold SubId_eq. apply String.eqb_eq.
  rewrite (sv_of_ctor sgn uninit' val id' H' E). symmetry. exact Hsv.
Qed.

Lemma SubId_reconstruct_witness :
  exists id, SubId_ctor true blank_storage "sub-7" = Ok id /\
             spec_valid_subid (sv true id).
Proof.
  eexists. split; [reflexivity|].
  apply (SubId_reconstruct true blank_storage blank_storage "sub-7" _
           eq_refl eq_refl eq_refl).
Defined.

Lemma badChar_signedness (c : ascii) : badChar true c = badChar false c.
Proof.
  pose proof (badChar_false_iff true c) as T.
  pose proof (badChar_false_iff false c) as F.
  destruct (badChar true c), (badChar false c); try reflexivity.
  - exact (proj2 T (proj1 F eq_refl)).
  - symmetry. exact (proj2 F (proj1 T eq_refl)).
Qed.

(** X5. The signedness of plain [char] makes no difference: the
    constructor accepts, rejects and fills the buffer in the same way under
    both, and a constructed SubId decodes to the same string under both. *)
Theorem SubId_signedness_irrelevant :
  forall (uninit : list ascii) (val : string),
    SubId_ctor true uninit val = SubId_ctor false uninit val /\
    forall id, length uninit = 65%nat -> SubId_ctor true uninit val = Ok id ->
               sv true id = sv false id.
Proof.
  intros uninit val.
  assert (E : SubId_ctor true uninit val = SubId_ctor false uninit val).
  { unfold SubId_ctor.
    replace (existsb (badChar true) (list_ascii_of_string val))
      with (existsb (badChar false) (list_ascii_of_string val)); [reflexivity|].
    induction (list_ascii_of_string val) as [|c l IH]; cbn [existsb];
      [reflexivity | now rewrite IH, badChar_signedness]. }
  split; [exact E|].
  intros id Hlen Hok.
  rewrite (sv_of_ctor true uninit val id Hlen Hok).
  rewrite E in Hok.
  now rewrite (sv_of_ctor false uninit val id Hlen Hok).
Qed.

(** X6. A Subscription exists only under an acceptable id: its constructor
    succeeds exactly on the ids the SubId constructor accepts, passes a
    SubId error through unchanged, and on success stores the connection,
    filter group and address it was given under an id that decodes to the
    given string. *)
Theorem Subscription_ctor_fields :
  forall (sgn : bool) (FG : Type) (uninit : list ascii) (connId_ : Z)
         (subId_ : string) (fg : FG) (ipAddr_ : string),
    length uninit = 65%nat ->
    ((exists sub, Subscription_ctor sgn uninit connId_ subId_ fg ipAddr_ = Ok sub)
       <-> spec_valid_subid subId_) /\
    (forall what, Subscription_ctor sgn uninit connId_ subId_ fg ipAddr_ = Throw what
       <-> SubId_ctor sgn uninit subId_ = Throw what) /\
    (forall sub, Subscription_ctor sgn uninit connId_ subId_ fg ipAddr_ = Ok sub ->
       connId sub = connId_ /\ sv sgn (subId sub) = subId_ /\
       filterGroup sub = fg /\ ipAddr sub = ipAddr_).
Proof.
  intros sgn FG uninit connId_ subId_ fg ipAddr_ Hlen.
  pose proof (SubId_ctor_ok_iff sgn uninit subId_) as Hv.
  pose proof (sv_of_ctor sgn uninit subId_) as Hsv.
  unfold Subscription_ctor.
  destruct (SubId_ctor sgn uninit subId_) as [sid|e]; cbn [is_ok] in Hv.
  - split; [|split].
    + split; [intros _; now apply Hv | intros _; eexists; reflexivity].
    + intros what. split; discriminate.
    + intros sub [= <-]. cbn. repeat split. now apply Hsv.
  - split; [|split].
    + split; [intros [sub H]; discriminate | intros H; apply Hv in H; discriminate].
    + intros what. split; intros [= ->]; reflexivity.
    + intros sub H. discriminate.
Qed.

Lemma Subscription_ctor_fields_witness :
  exists sub, Subscription_ctor true blank_storage 9 "feed" tt "10.0.0.1" = Ok sub /\
              connId sub = 9 /\ sv true (subId sub) = "feed".
Proof.
  eexists. split; [reflexivity|].
  destruct (Subscription_ctor_fields true unit blank_storage 9 "feed" tt "10.0.0.1" eq_refl)
    as (_ & _ & F).
  destruct (F _ eq_refl) as (A & B & _). split; [exact A | exact B].
Defined.

(** ** The test program *)

Import SubIdTests.

Lemma expectSuccess_returns (sgn : bool) (stack : list ascii) (name subId : string) :
  length stack = 65%nat ->
  (expectSuccess sgn stack name subId = Returned <-> spec_valid_subid subId).
Proof.
  intros Hlen. unfold expectSuccess.
  pose proof (SubId_ctor_ok_iff sgn stack subId) as Hv.
  pose proof (sv_of_ctor sgn stack subId) as Hsv.
  destruct (SubId_ctor sgn stack subId) as [s|what]; cbn [is_ok] in Hv.
  - rewrite (Hsv s Hlen eq_refl), String.eqb_refl. cbn [negb].
    split; [intros _; now apply Hv | reflexivity].
  - split; [discriminate | intros H; apply Hv in H; discriminate].
Qed.

Lemma expectFailure_returns (sgn : bool) (stack : list ascii) (name subId : string) :
  expectFailure sgn stack name subId = Returned <-> ~ spec_valid_subid subId.
Proof.
  unfold expectFailure.
  pose proof (SubId_ctor_ok_iff sgn stack subId) as Hv.
  destruct (SubId_ctor sgn stack subId) as [s|what]; cbn [is_ok] in Hv.
  - split; [discriminate | intros H; exfalso; apply H; now apply Hv].
  - split; [intros _ H; apply Hv in H; discriminate | reflexivity].
Qed.

Lemma valid_by_run (val : string) :
  is_ok (SubId_ctor true blank_storage val) = true -> spec_valid_subid val.
Proof.
  apply SubId_ctor_ok_iff.
Qed.

Lemma invalid_by_run (val : string) :
  is_ok (SubId_ctor true blank_storage val) = false -> ~ spec_valid_subid val.
Proof.
  intros H V. apply (SubId_ctor_ok_iff true blank_storage val) in V. congruence.
Qed.

(** X7. The helpers of the test program decide validity: [expectSuccess]
    returns exactly on the acceptable ids (it never reports a round-trip
    mismatch) and [expectFailure] exactly on the others; so [main] passes,
    printing its success line and returning EXIT_SUCCESS, whatever the
    signedness of [char] and the content of the stack. *)
Theorem SubIdTests_pass :
  forall (sgn : bool) (stack : list ascii),
    length stack = 65%nat ->
    (forall name subId,
        expectSuccess sgn stack name subId = Returned <-> spec_valid_subid subId) /\
    (forall name subId,
        expectFailure sgn stack name subId = Returned <-> ~ spec_valid_subid subId) /\
    main sgn stack = (0, String.append "SubId tests passed" endl, "").
Proof.
  intros sgn stack Hlen.
  split; [|split].
  - intros name subId. now apply expectSuccess_returns.
  - intros name subId. apply expectFailure_returns.
  - unfold main.
    rewrite (proj2 (expectSuccess_returns sgn stack "max length" _ Hlen))
      by (apply valid_by_run; reflexivity).
    rewrite !(fun n v H => proj2 (expectFailure_returns sgn stack n v)
                                 (invalid_by_run v H))
      by reflexivity.
    reflexivity.
Qed.

Lemma SubIdTests_pass_witness :
  main true blank_storage = (0, String.append "SubId tests passed" endl, "").
Proof.
  exact (proj2 (proj2 (SubIdTests_pass true blank_storage eq_refl))).
Defined.

(** ** The metrics as their callers see them *)

Import MetricsUse.

Lemma Family_eqb_spec (f g : Family) : reflect (f = g) (Family_eqb f g).
Proof.
  destruct f, g; constructor; congruence.
Qed.

Lemma run_macro_family_inc (c : MacroCall) :
  run_macro c = through_instance (family_inc (macro_family c) (macro_label c) 1).
Proof.
  destruct c; reflexivity.
Qed.

Lemma bump_bump (a b : Z) (x : option Z) : bump a (bump b x) = bump (b + a) x.
Proof.
  unfold bump. f_equal. rewrite Zplus_mod_idemp_l. f_equal. lia.
Qed.

Lemma count_calls_nonneg (f : Family) (label : string) (cs : list MacroCall) :
  0 <= count_calls f label cs.
Proof.
  induction cs as [|c cs IH]; cbn [count_calls]; [lia|].
  destruct (_ && _); lia.
Qed.

(** What one macro use does to what a family reports. *)
Lemma recorded_run_macro (c : MacroCall) (p : Process) (f : Family) (label : string) :
  recorded (family_counter f (fst (getInstance (run_macro c p)))) label =
  if Family_eqb (macro_family c) f && String.eqb (macro_label c) label
  then bump 1 (recorded (family_counter f (fst (getInstance p))) label)
  else recorded (family_counter f (fst (getInstance p))) label.
Proof.
  rewrite run_macro_family_inc, getInstance_through. cbn [fst].
  rewrite family_counter_inc.
  destruct (Family_eqb_spec (macro_family c) f) as [<-|Hne]; cbn [andb].
  - replace (match macro_family c, macro_family c with
             | ClientMsg, ClientMsg | RelayMsg, RelayMsg | EventKind, EventKind =>
                 LabeledCounter_inc (macro_label c) 1
                   (family_counter (macro_family c) (fst (getInstance p)))
             | _, _ => family_counter (macro_family c) (fst (getInstance p))
             end)
      with (LabeledCounter_inc (macro_label c) 1
              (family_counter (macro_family c) (fst (getInstance p))))
      by (destruct (macro_family c); reflexivity).
    rewrite recorded_inc.
    destruct (String.eqb_spec (macro_label c) label) as [->|]; reflexivity.
  - destruct (macro_family c), f; try reflexivity; congruence.
Qed.

Lemma recorded_run_macros (cs : list MacroCall) (p : Process) (f : Family) (label : string) :
  recorded (family_counter f (fst (getInstance (run_macros cs p)))) label =
  if count_calls f label cs =? 0
  then recorded (family_counter f (fst (getInstance p))) label
  else bump (count_calls f label cs)
            (recorded (family_counter f (fst (getInstance p))) label).
Proof.
  revert p. induction cs as [|c cs IH]; intros p; cbn [run_macros fold_left count_calls].
  - reflexivity.
  - fold (run_macros cs (run_macro c p)).
    rewrite IH, recorded_run_macro.
    pose proof (count_calls_nonneg f label cs) as Hn.
    destruct (_ && _).
    + destruct (Z.eqb_spec (count_calls f label cs) 0) as [E|E].
      * rewrite E. reflexivity.
      * replace (1 + count_calls f label cs =? 0) with false
          by (symmetry; apply Z.eqb_neq; lia).
        apply bump_bump.
    + rewrite Z.add_0_l. reflexivity.
Qed.

Lemma recorded_start (f : Family) (label : string) :
  recorded (family_counter f (fst (getInstance Process_start))) label = None.
Proof.
  destruct f; apply recorded_new.
Qed.

(** X8. Counting through the macros: after any sequence of macro uses in a
    process, what a family reports for a label is the number of uses that
    named that family and label, modulo 2^64, and a label never used is not
    reported at all; uses of other families or labels do not count. *)
Theorem macros_count_uses :
  forall (cs : list MacroCall) (f : Family) (label : string),
    SMap.find label (read_family f (run_macros cs Process_start)) =
    if count_calls f label cs =? 0 then None
    else Some (count_calls f label cs mod 2 ^ 64).
Proof.
  intros cs f label.
  pose proof (recorded_run_macros cs Process_start f label) as H.
  rewrite recorded_start in H. unfold recorded, bump in H.
  rewrite Z.add_0_l in H.
  unfold read_family, read_instance.
  destruct (getInstance (run_macros cs Process_start)) as [pm p'].
  exact H.
Qed.

Example macros_count_example :
  SMap.elements
    (read_family ClientMsg
       (run_macros [IncClientMsg "REQ"; IncRelayMsg "REQ"; IncClientMsg "CLOSE";
                    IncClientMsg "REQ"; IncEventKind "1"] Process_start))
  = [("CLOSE", 1); ("REQ", 2)].
Proof. reflexivity. Qed.

Lemma count_calls_perm (f : Family) (label : string) (cs cs' : list MacroCall) :
  Permutation cs cs' -> count_calls f label cs = count_calls f label cs'.
Proof.
  induction 1; cbn [count_calls]; lia.
Qed.

(** Registries that report the same counts render the same text. *)
Lemma render_ext (pm pm' : PrometheusMetrics) :
  (forall f label,
      recorded (family_counter f pm) label = recorded (family_counter f pm') label) ->
  render pm = render pm'.
Proof.
  intros H. rewrite !render_families.
  assert (E : forall f, SMap.elements (getAll (family_counter f pm))
                        = SMap.elements (getAll (family_counter f pm'))).
  { intros f. apply eqlistA_eqke_eq, SMapOrd.elements_Equal_eqlistA.
    intros label. apply H. }
  pose proof (E ClientMsg) as Ec. pose proof (E RelayMsg) as Er.
  pose proof (E EventKind) as Ee. cbn [family_counter] in Ec, Er, Ee.
  now rewrite Ec, Er, Ee.
Qed.

(** X9. The order of the increments does not matter: two runs that use
    the macros the same number of times for each family and label, in any
    order, starting from the same process state, render the same text and
    report the same counts. *)
Theorem render_order_independent :
  forall (cs cs' : list MacroCall) (p : Process),
    Permutation cs cs' ->
    read_render (run_macros cs p) = read_render (run_macros cs' p) /\
    forall f, SMap.elements (read_family f (run_macros cs p))
              = SMap.elements (read_family f (run_macros cs' p)).
Proof.
  intros cs cs' p HP.
  assert (R : forall f label,
             recorded (family_counter f (fst (getInstance (run_macros cs p)))) label
             = recorded (family_counter f (fst (getInstance (run_macros cs' p)))) label).
  { intros f label. rewrite !recorded_run_macros.
    now rewrite (count_calls_perm f label cs cs' HP). }
  unfold read_render, read_family, read_instance.
  destruct (getInstance (run_macros cs p)) as [pm q].
  destruct (getInstance (run_macros cs' p)) as [pm' q'].
  cbn [fst] in *. split.
  - now apply render_ext.
  - intros f. apply eqlistA_eqke_eq, SMapOrd.elements_Equal_eqlistA.
    intros label. apply R.
Qed.

Lemma render_order_independent_witness :
  read_render (run_macros [IncClientMsg "REQ"; IncEventKind "1"; IncClientMsg "EVENT"] Process_start)
  = read_render (run_macros [IncClientMsg "EVENT"; IncClientMsg "REQ"; IncEventKind "1"] Process_start).
Proof.
  refine (proj1 (render_order_independent _ _ Process_start _)).
  apply Permutation_sym.
  change (Permutation (IncClientMsg "EVENT" :: [IncClientMsg "REQ"; IncEventKind "1"])
                      ([IncClientMsg "REQ"; IncEventKind "1"] ++ IncClientMsg "EVENT" :: [])).
  apply Permutation_cons_app. rewrite app_nil_r. apply Permutation_refl.
Defined.

(** X10. [render()] writes labels as they are, without escaping: two
    processes that report different counts can render the same text, since
    a label that contains a double quote and a newline reads as two sample
    lines. *)
Theorem render_labels_verbatim :
  exists (cs1 cs2 : list MacroCall) (label : string),
    SMap.find label (read_family ClientMsg (run_macros cs1 Process_start))
      <> SMap.find label (read_family ClientMsg (run_macros cs2 Process_start)) /\
    read_render (run_macros cs1 Process_start)
      = read_render (run_macros cs2 Process_start).
Proof.
  pose (two_lines :=
          String.append "a"
            (String.append DQUOTE
               (String.append "} 1"
                  (String.append Metrics.LF
                     (String.append "nostr_client_messages_total{verb="
                        (String.append DQUOTE "b")))))).
  exists [IncClientMsg two_lines; IncClientMsg two_lines],
         [IncClientMsg "a"; IncClientMsg "b"; IncClientMsg "b"],
         "a".
  split.
  - vm_compute. discriminate.
  - vm_compute. reflexivity.
Qed.

(** *** The counters stay 64-bit values *)

(** The registry keeps 64-bit counters: a new one has none, and an
    increment stores a value reduced modulo 2^64. *)
Lemma uint64_counters_new : uint64_counters PrometheusMetrics_new.
Proof.
  intros f label c. destruct f; cbn; discriminate.
Qed.

Lemma uint64_counters_family_inc (f : Family) (label : string) (n : Z)
    (pm : PrometheusMetrics) :
  uint64_counters pm -> uint64_counters (family_inc f label n pm).
Proof.
  intros U g l c. rewrite family_counter_inc.
  assert (Hinc : SMap.find l (counters (LabeledCounter_inc label n (family_counter g pm)))
                 = Some c -> 0 <= value c < 2 ^ 64).
  { rewrite find_inc. destruct (String.eqb label l).
    - intros [= <-]. cbn [Counter_inc value]. apply Z.mod_pos_bound. lia.
    - apply U. }
  destruct f, g; first [exact Hinc | apply U].
Qed.

Example two_line_label_registry :
  uint64_counters registry_with_two_line_label /\
  ~ labels_newline_free registry_with_two_line_label.
Proof.
  split.
  - unfold registry_with_two_line_label.
    apply uint64_counters_family_inc, uint64_counters_family_inc, uint64_counters_new.
  - intros H.
    specialize (H ClientMsg label_of_two_lines {| value := 2 |} eq_refl).
    discriminate H.
Qed.

(** ** deploy.sh *)

Import DeployHost.





Example deploy_empty_email :
  deploy "deploy.sh" ["relay.example.org"; ""] = deploy "deploy.sh" ["relay.example.org"]
  /\ deploy "deploy.sh" [""] = None
  /\ deploy "deploy.sh" ["relay.example.org"; "ops team"] = None.
Proof. repeat split; reflexivity. Qed.

(** *** Swap space *)



(** X12. The swap step never removes or rewrites what [/etc/fstab] holds:
    the new text is the old one, or the old one followed by the swap entry
    and a newline; with 4000 MB of swap or more it changes nothing, with
    less the swap file exists afterwards. *)
Theorem configure_swap_appends :
  forall (swap_total_mb : Z) (s : SwapState),
    (fstab (configure_swap swap_total_mb s) = fstab s \/
     fstab (configure_swap swap_total_mb s)
       = String.append (fstab s) (String.append fstab_entry (String LF EmptyString))) /\
    (4000 <= swap_total_mb -> configure_swap swap_total_mb s = s) /\
    (swap_total_mb < 4000 ->
       swapfile_exists (configure_swap swap_total_mb s) = true /\
       (grep_line_start "/swapfile" true (fstab s) = true ->
          fstab (configure_swap swap_total_mb s) = fstab s)).
Proof.
  intros mb s. unfold configure_swap.
  destruct (Z.ltb_spec mb 4000) as [Hlt|Hge].
  - cbn [fstab swapfile_exists]. split; [|split].
    + destruct (grep_line_start "/swapfile" true (fstab s)); cbn [negb]; auto.
    + lia.
    + intros _. split; [destruct (swapfile_exists s); reflexivity|].
      intros ->. reflexivity.
  - split; [now left|]. split; [reflexivity | lia].
Qed.



(** When the last line of fstab is incomplete the entry is glued to it, no
    line starts with /swapfile, and another run appends again. *)
Example configure_swap_incomplete_line :
  let s := {| swapfile_exists := true; fstab := "tmpfs /tmp tmpfs defaults 0 0" |} in
  fstab (configure_swap 0 (configure_swap 0 s))
  = String.append "tmpfs /tmp tmpfs defaults 0 0/swapfile none swap sw 0 0"
      (String LF (String.append "/swapfile none swap sw 0 0" (String LF EmptyString))).
Proof. reflexivity. Qed.

(** Any line that starts with /swapfile holds the entry back, also one for
    another file. *)
Example configure_swap_prefix_match :
  let s := {| swapfile_exists := false;
              fstab := String.append "/swapfile2 none swap sw 0 0" (String LF EmptyString) |} in
  fstab (configure_swap 0 s) = fstab s.
Proof. reflexivity. Qed.

(** *** Files written *)

Lemma add_find {elt : Type} (p q : string) (e : elt) (m : SMap.t elt) :
  SMap.find q (SMap.add p e m) = if String.eqb p q then Some e else SMap.find q m.
Proof.
  rewrite SMapFacts.add_o.
  destruct (String_as_OT.eq_dec p q) as [->|Hne].
  - now rewrite String.eqb_refl.
  - apply String.eqb_neq in Hne. now rewrite Hne.
Qed.

Lemma find_redirect_to (umask : Z) (p q : string) (c : Content) (fs : Files) :
  SMap.find q (redirect_to umask p c fs) =
  if String.eqb p q
  then Some match SMap.find p fs with
            | Some f => {| content := c; owner := owner f; mode := mode f |}
            | None => {| content := c; owner := "root:root"; mode := Z.ldiff 438 umask |}
            end
  else SMap.find q fs.
Proof.
  unfold redirect_to. destruct (SMap.find p fs); apply add_find.
Qed.

Lemma find_chown (o p q : string) (fs : Files) :
  SMap.find q (chown o p fs) =
  if String.eqb p q
  then option_map (fun f => {| content := content f; owner := o; mode := mode f |})
                  (SMap.find p fs)
  else SMap.find q fs.
Proof.
  unfold chown. destruct (SMap.find p fs) eqn:E.
  - apply add_find.
  - destruct (String.eqb_spec p q) as [<-|]; [exact E | reflexivity].
Qed.

Lemma find_chmod (m : Z) (p q : string) (fs : Files) :
  SMap.find q (chmod m p fs) =
  if String.eqb p q
  then option_map (fun f => {| content := content f; owner := owner f; mode := m |})
                  (SMap.find p fs)
  else SMap.find q fs.
Proof.
  unfold chmod. destruct (SMap.find p fs) eqn:E.
  - apply add_find.
  - destruct (String.eqb_spec p q) as [<-|]; [exact E | reflexivity].
Qed.

Lemma find_create_config (umask : Z) (HOST ADMIN_EMAIL q : string) (fs : Files) :
  SMap.find q (create_config umask HOST ADMIN_EMAIL fs) =
  if String.eqb STRFRY_CONFIG q
  then Some {| content := ConfText (strfry_conf HOST ADMIN_EMAIL);
               owner := "root:strfry"; mode := 416 |}
  else SMap.find q fs.
Proof.
  unfold create_config.
  rewrite find_chmod, !find_chown, !find_redirect_to.
  rewrite String.eqb_refl.
  destruct (String.eqb STRFRY_CONFIG q); [|reflexivity].
  destruct (SMap.find STRFRY_CONFIG fs); reflexivity.
Qed.

Lemma find_create_service (umask : Z) (q : string) (fs : Files) :
  SMap.find q (create_service umask fs) =
  if String.eqb SERVICE_PATH q
  then Some match SMap.find SERVICE_PATH fs with
            | Some f => f
            | None => {| content := PlainText service_unit; owner := "root:root";
                         mode := Z.ldiff 438 umask |}
            end
  else SMap.find q fs.
Proof.
  unfold create_service.
  destruct (SMap.find SERVICE_PATH fs) as [f|] eqn:E.
  - destruct (String.eqb_spec SERVICE_PATH q) as [<-|]; [exact E | reflexivity].
  - rewrite find_redirect_to, E. reflexivity.
Qed.

Lemma find_write_files (umask : Z) (HOST ADMIN_EMAIL q : string) (fs : Files) :
  SMap.find q (write_files umask HOST ADMIN_EMAIL fs) =
  if String.eqb SERVICE_PATH q
  then Some match SMap.find SERVICE_PATH fs with
            | Some f => f
            | None => {| content := PlainText service_unit; owner := "root:root";
                         mode := Z.ldiff 438 umask |}
            end
  else if String.eqb STRFRY_CONFIG q
  then Some {| content := ConfText (strfry_conf HOST ADMIN_EMAIL);
               owner := "root:strfry"; mode := 416 |}
  else SMap.find q fs.
Proof.
  unfold write_files.
  rewrite find_create_service, !find_create_config.
  change (String.eqb STRFRY_CONFIG SERVICE_PATH) with false. cbv iota.
  reflexivity.
Qed.

(** X14. What a run leaves in the two files it writes, whatever was there:
    /etc/strfry.conf holds the default configuration, belongs to
    root:strfry and has mode 0640, so edits to it are lost and it is never
    readable by others; an existing strfry.service is kept as it is and a
    missing one is created; no other file changes; and a second run, even
    for the same host under another umask, changes nothing more. *)
Theorem write_files_effect :
  forall (umask umask' : Z) (HOST ADMIN_EMAIL : string) (fs : Files),
    let fs' := write_files umask HOST ADMIN_EMAIL fs in
    SMap.find STRFRY_CONFIG fs'
      = Some {| content := ConfText (strfry_conf HOST ADMIN_EMAIL);
                owner := "root:strfry"; mode := 416 |} /\
    SMap.find SERVICE_PATH fs'
      = Some match SMap.find SERVICE_PATH fs with
             | Some f => f
             | None => {| content := PlainText service_unit; owner := "root:root";
                          mode := Z.ldiff 438 umask |}
             end /\
    (forall path, path <> STRFRY_CONFIG -> path <> SERVICE_PATH ->
                  SMap.find path fs' = SMap.find path fs) /\
    SMap.Equal (write_files umask' HOST ADMIN_EMAIL fs') fs'.
Proof.
  intros umask umask' HOST ADMIN_EMAIL fs fs'. subst fs'.
  split; [|split; [|split]].
  - rewrite find_write_files. reflexivity.
  - rewrite find_write_files. reflexivity.
  - intros path H1 H2. rewrite find_write_files.
    apply not_eq_sym, String.eqb_neq in H1, H2. now rewrite H1, H2.
  - intros path. rewrite !find_write_files.
    change (String.eqb SERVICE_PATH SERVICE_PATH) with true. cbv iota.
    destruct (String.eqb SERVICE_PATH path); [reflexivity|].
    destruct (String.eqb STRFRY_CONFIG path); reflexivity.
Qed.

Example mode_0640 : 416 = 6 * 64 + 4 * 8 + 0 /\ Z.land 416 7 = 0.
Proof. split; reflexivity. Qed.

Example redeploy_resets_config :
  let edited := {| content := PlainText "db = /data"; owner := "root:root"; mode := 420 |} in
  let unit := {| content := PlainText "edited unit"; owner := "root:root"; mode := 420 |} in
  let fs := SMap.add SERVICE_PATH unit (SMap.add STRFRY_CONFIG edited (SMap.empty File)) in
  let fs' := write_files 18 "relay.example" "ops@relay.example" fs in
  SMap.find SERVICE_PATH fs' = Some unit /\
  option_map owner (SMap.find STRFRY_CONFIG fs') = Some "root:strfry" /\
  option_map mode (SMap.find STRFRY_CONFIG fs') = Some 416.
Proof. repeat split; reflexivity. Qed.

(** *** The parts the script installs fit together *)

Ltac pick_line := repeat (first [left; reflexivity | right]).

(** X15. The configuration, the nginx site and the systemd unit that the
    script writes agree with each other, for every host and contact: nginx
    forwards to the address and port the relay binds; the header nginx
    sets for the client address is the relay's [realIpHeader], which is
    all lower-case as the configuration asks; the largest websocket frame
    is larger than the largest event, as the configuration asks; and the
    unit starts the installed binary with the written configuration file,
    as the user and group the script creates, under a file limit equal to
    the relay's [nofiles]. *)
Theorem deployed_parts_agree :
  forall HOST ADMIN_EMAIL : string,
    let conf := strfry_conf HOST ADMIN_EMAIL in
    (exists bind port,
        lookup ["relay"; "bind"] conf = Some (VStr bind) /\
        lookup ["relay"; "port"] conf = Some (VNum port) /\
        directive "proxy_pass" nginx_location
        = Some (String.append "http://"
                  (String.append bind (String.append ":" (show_num port))))) /\
    (exists header,
        lookup ["relay"; "realIpHeader"] conf = Some (VStr header) /\
        In header (proxy_headers nginx_location) /\
        forallb (fun c => negb (is_upper c)) (list_ascii_of_string header) = true) /\
    (exists frame event,
        lookup ["relay"; "maxWebsocketPayloadSize"] conf = Some (VNum frame) /\
        lookup ["events"; "maxEventSize"] conf = Some (VNum event) /\
        event < frame) /\
    In (String.append "ExecStart="
          (String.append STRFRY_BINARY_PATH
             (String.append " relay --config " STRFRY_CONFIG)))
       (lines service_unit) /\
    In (String.append "User=" STRFRY_USER) (lines service_unit) /\
    In (String.append "Group=" STRFRY_GROUP) (lines service_unit) /\
    (exists nofiles,
        lookup ["relay"; "nofiles"] conf = Some (VNum nofiles) /\
        In (String.append "LimitNOFILE=" (show_num nofiles)) (lines service_unit)).
Proof.
  intros HOST ADMIN_EMAIL conf. subst conf.
  split; [|split; [|split; [|split; [|split; [|split]]]]].
  - exists "127.0.0.1", 7777. repeat split; reflexivity.
  - exists "x-real-ip". split; [reflexivity|]. split; [|reflexivity].
    vm_compute. pick_line.
  - exists 131072, 65536. repeat split; try reflexivity.
  - vm_compute. pick_line.
  - vm_compute. pick_line.
  - vm_compute. pick_line.
  - exists 65536. split; [reflexivity|]. vm_compute. pick_line.
Qed.

Example lines_example :
  lines (String.append "a" (String LF (String LF (String.append "bc" (String LF "d")))))
  = ["a"; ""; "bc"; "d"].
Proof. reflexivity. Qed.
